(** * StudentFinanceManager: the expense ledger of the component

    A shallow embedding of [src/components/StudentFinanceManager.tsx]:
    the component state, the [addExpense] handler, the derived values
    [totalSpent] and [isWithinBudget], and the expressions the budget
    panel renders.  JavaScript numbers are IEEE 754 binary64 values,
    modelled with the Standard Library's [SpecFloat]; strings are the
    UTF-8 bytes of the JavaScript string.  The handler is a function
    from the state cells and the two clock reads of the call to the
    next state cells and the toast shown. *)

From Stdlib Require Import ZArith List String Ascii Bool Lia.
From Stdlib Require Import SpecFloat DecimalString.
From Stdlib Require DecimalZ DecimalPos.
Import ListNotations.

Local Open Scope Z_scope.

(** ** JavaScript numbers *)

Module Number.

Definition prec : Z := 53.
Definition emax : Z := 1024.

Definition number : Type := spec_float.

Definition NaN : number := S754_nan.
Definition POSITIVE_INFINITY : number := S754_infinity false.
Definition zero : number := S754_zero false.

(** [a + b], [a - b], [a * b], [a / b] *)
Definition add (a b : number) : number := SFadd prec emax a b.
Definition sub (a b : number) : number := SFsub prec emax a b.
Definition mul (a b : number) : number := SFmul prec emax a b.
Definition div (a b : number) : number := SFdiv prec emax a b.

(** [a <= b], [a < b]; both are false when an operand is NaN *)
Definition le (a b : number) : bool := SFleb a b.
Definition lt (a b : number) : bool := SFltb a b.

(** The global [isNaN] on a number. *)
Definition isNaN (a : number) : bool :=
  match a with S754_nan => true | _ => false end.

Definition isFinite (a : number) : bool :=
  match a with S754_nan | S754_infinity _ => false | _ => true end.

(** A numeric literal with an integer value. *)
Definition of_Z (z : Z) : number := binary_normalize prec emax z 0 false.

(** The Number value of the exact rational [(-1)^neg * n / d]:
    round to nearest, ties to even, overflow to infinity. *)
Definition of_ratio (neg : bool) (n : N) (d : positive) : number :=
  match n with
  | N0 => S754_zero neg
  | Npos p => SFdiv prec emax (S754_finite neg p 0) (S754_finite false d 0)
  end.

(** The Number value of [(-1)^neg * m * 10^e]. *)
Definition of_decimal (neg : bool) (m : N) (e : Z) : number :=
  match e with
  | Zneg k => of_ratio neg m (Pos.pow 10 k)
  | Z0 => of_ratio neg m 1
  | Zpos k => of_ratio neg (m * Npos (Pos.pow 10 k)) 1
  end.

(** [Math.round]: the closest integral Number, ties towards
    +Infinity; non-finite and integral arguments are returned as they
    are, and arguments in [-0.5, 0) give -0. *)
Definition Math_round (x : number) : number :=
  match x with
  | S754_finite s m e =>
      match e with
      | Zneg k =>
          let q := Z.shiftr (Zpos m) (Zpos k) in
          let r := Zpos m - Z.shiftl q (Zpos k) in
          let half := Z.shiftl 1 (Zpos k - 1) in
          let n := if s then (if half <? r then q + 1 else q)
                   else (if half <=? r then q + 1 else q) in
          binary_normalize prec emax (if s then - n else n) 0 s
      | _ => x
      end
  | _ => x
  end.

Definition is_neg_zero (x : number) : bool :=
  match x with S754_zero true => true | _ => false end.

(** [Math.min] of two arguments: NaN if either is NaN, and -0 is
    smaller than +0. *)
Definition Math_min (a b : number) : number :=
  if isNaN a || isNaN b then NaN
  else if lt a b then a
  else if lt b a then b
  else if is_neg_zero a then a else b.

End Number.

Import Number.

(** ** JavaScript strings and [parseFloat] *)

Definition byte_is (a : ascii) (n : N) : bool := N.eqb (N_of_ascii a) n.

Definition byte_in (a : ascii) (lo hi : N) : bool :=
  N.leb lo (N_of_ascii a) && N.leb (N_of_ascii a) hi.

(** WhiteSpace and LineTerminator code points encoded on one byte:
    TAB, LF, VT, FF, CR and SP. *)
Definition ws1 (a : ascii) : bool := byte_in a 9 13 || byte_is a 32.

(** U+00A0. *)
Definition ws2 (a b : ascii) : bool := byte_is a 194 && byte_is b 160.

(** U+1680, U+2000..U+200A, U+2028, U+2029, U+202F, U+205F, U+3000
    and U+FEFF. *)
Definition ws3 (a b c : ascii) : bool :=
  (byte_is a 225 && byte_is b 154 && byte_is c 128)
  || (byte_is a 226 && byte_is b 128
      && (byte_in c 128 138 || byte_in c 168 169 || byte_is c 175))
  || (byte_is a 226 && byte_is b 129 && byte_is c 159)
  || (byte_is a 227 && byte_is b 128 && byte_is c 128)
  || (byte_is a 239 && byte_is b 187 && byte_is c 191).

(** [TrimString(s, start)] *)
Fixpoint trimStart (s : string) : string :=
  match s with
  | EmptyString => s
  | String a r =>
      if ws1 a then trimStart r
      else
        match r with
        | String b r2 =>
            if ws2 a b then trimStart r2
            else
              match r2 with
              | String c r3 => if ws3 a b c then trimStart r3 else s
              | EmptyString => s
              end
        | EmptyString => s
        end
  end.

Definition digit_of (a : ascii) : option N :=
  if byte_in a 48 57 then Some (N_of_ascii a - 48)%N else None.

(** The longest run of DecimalDigits at the head of [s], read onto the
    accumulator [acc]: its value, its length, and what follows it. *)
Fixpoint digits (acc : N) (cnt : nat) (s : string) : N * nat * string :=
  match s with
  | EmptyString => (acc, cnt, s)
  | String a r =>
      match digit_of a with
      | Some d => digits (10 * acc + d)%N (S cnt) r
      | None => (acc, cnt, s)
      end
  end.

(** The value of the ExponentPart at the head of [s], 0 when there is
    none (an indicator that no digit follows is not part of the
    literal). *)
Definition exponentPart (s : string) : Z :=
  match s with
  | String a r =>
      if byte_is a 101 || byte_is a 69 then
        let '(neg, r') :=
          match r with
          | String b r2 =>
              if byte_is b 43 then (false, r2)
              else if byte_is b 45 then (true, r2)
              else (false, r)
          | EmptyString => (false, r)
          end in
        let '(v, cnt, _) := digits 0 0 r' in
        match cnt with
        | O => 0
        | S _ => if neg then - Z.of_N v else Z.of_N v
        end
      else 0
  | EmptyString => 0
  end.

(** The global [parseFloat] on a string: leading white space is
    dropped, the longest prefix that is a StrDecimalLiteral is read, and
    NaN is returned when there is none. *)
Definition parseFloat (s : string) : number :=
  let t := trimStart s in
  let '(neg, u) :=
    match t with
    | String a r =>
        if byte_is a 43 then (false, r)
        else if byte_is a 45 then (true, r)
        else (false, t)
    | EmptyString => (false, t)
    end in
  if String.prefix "Infinity" u then S754_infinity neg
  else
    let '(ip, ni, r1) := digits 0 0 u in
    let '(m, nf, r2) :=
      match r1 with
      | String a r =>
          if byte_is a 46 then
            let '(m, n, r') := digits ip 0 r in (m, n, r')
          else (ip, O, r1)
      | EmptyString => (ip, O, r1)
      end in
    match (ni + nf)%nat with
    | O => NaN
    | S _ => of_decimal neg m (exponentPart r2 - Z.of_nat nf)
    end.

(** A Number whose value is an integer, printed by [toString]: the
    clock readings this component prints are integers below 2^53. *)
Definition toString (z : Z) : string := NilEmpty.string_of_int (Z.to_int z).

(** ** The component *)

Record Expense : Type := {
  id : string;
  name : string;
  amount : number;
  category : string;
  date : Z
}.

Definition categories : list string :=
  ["Food"; "Transportation"; "Entertainment"; "Education"; "Healthcare";
   "Shopping"; "Other"]%string.

(** The [useState] cells of the component.  [monthlyBudget] has no
    setter and stays at its initial value. *)
Record State : Type := {
  expenses : list Expense;
  expenseName : string;
  expenseAmount : string;
  expenseCategory : string
}.

Definition initial : State :=
  {| expenses := []; expenseName := ""; expenseAmount := "";
     expenseCategory := "" |}.

Definition monthlyBudget : number := of_Z 5000.

(** The two clock reads of one call of [addExpense]: [Date.now()] and
    [new Date()], in milliseconds since the epoch. *)
Record Clock : Type := { Date_now : Z; new_Date : Z }.

(** The toast a call of [addExpense] shows, by its title; the
    success toast carries the values its description interpolates. *)
Inductive Toast : Type :=
| MissingInformation
| InvalidAmount
| ExpenseAdded (expenseName : string) (amount : number).

Definition totalSpent (st : State) : number :=
  fold_left (fun sum expense => add sum (amount expense)) (expenses st) zero.

Definition isWithinBudget (st : State) : bool :=
  le (totalSpent st) monthlyBudget.

(** A string is falsy exactly when it is empty. *)
Definition falsy (s : string) : bool :=
  match s with EmptyString => true | _ => false end.

Definition addExpense (clk : Clock) (st : State) : State * Toast :=
  if falsy (expenseName st) || falsy (expenseAmount st)
     || falsy (expenseCategory st)
  then (st, MissingInformation)
  else
    let amount := parseFloat (expenseAmount st) in
    if isNaN amount || le amount zero
    then (st, InvalidAmount)
    else
      let newExpense :=
        {| id := toString (Date_now clk);
           name := expenseName st;
           amount := amount;
           category := expenseCategory st;
           date := new_Date clk |} in
      ({| expenses := expenses st ++ [newExpense];
          expenseName := "";
          expenseAmount := "";
          expenseCategory := "" |},
       ExpenseAdded (expenseName st) amount).

(** The three inputs' [onChange] handlers. *)
Definition setExpenseName (v : string) (st : State) : State :=
  {| expenses := expenses st; expenseName := v;
     expenseAmount := expenseAmount st;
     expenseCategory := expenseCategory st |}.

Definition setExpenseAmount (v : string) (st : State) : State :=
  {| expenses := expenses st; expenseName := expenseName st;
     expenseAmount := v; expenseCategory := expenseCategory st |}.

Definition setExpenseCategory (v : string) (st : State) : State :=
  {| expenses := expenses st; expenseName := expenseName st;
     expenseAmount := expenseAmount st; expenseCategory := v |}.

(** The values the budget panel renders. *)
Definition overBudgetAmount (st : State) : number :=
  sub (totalSpent st) monthlyBudget.

Definition usageRatio (st : State) : number :=
  div (totalSpent st) monthlyBudget.

Definition budgetUsagePercent (st : State) : number :=
  Math_min (of_Z 100) (Math_round (mul (usageRatio st) (of_Z 100))).

Definition progressWidth (st : State) : number :=
  Math_min (of_Z 100) (mul (usageRatio st) (of_Z 100)).

(** ** Calls and reachable states *)

(** The form filled with the three texts. *)
Definition fill (n a c : string) (st : State) : State :=
  setExpenseCategory c (setExpenseAmount a (setExpenseName n st)).

(** One use of the ledger: the form is filled and "Add" is clicked. *)
Record Call : Type := {
  clock : Clock;
  call_name : string;
  call_amount : string;
  call_category : string
}.

Definition submit (c : Call) (st : State) : State * Toast :=
  addExpense (clock c) (fill (call_name c) (call_amount c) (call_category c) st).

(** The calls that pass both checks of [addExpense]. *)
Definition accepted (c : Call) : bool :=
  negb (falsy (call_name c) || falsy (call_amount c) || falsy (call_category c))
  && negb (isNaN (parseFloat (call_amount c))
           || le (parseFloat (call_amount c)) zero).

Fixpoint run (cs : list Call) (st : State) : State :=
  match cs with
  | [] => st
  | c :: cs' => run cs' (fst (submit c st))
  end.

(** The states the component can be in: the initial one, and those the
    four handlers lead to. *)
Inductive reachable : State -> Prop :=
| reach_initial : reachable initial
| reach_name v st : reachable st -> reachable (setExpenseName v st)
| reach_amount v st : reachable st -> reachable (setExpenseAmount v st)
| reach_category v st : reachable st -> reachable (setExpenseCategory v st)
| reach_add clk st : reachable st -> reachable (fst (addExpense clk st)).

(** The entry an accepted call appends. *)
Definition entry_of (c : Call) : Expense :=
  {| id := toString (Date_now (clock c));
     name := call_name c;
     amount := parseFloat (call_amount c);
     category := call_category c;
     date := new_Date (clock c) |}.

(** ** Signs, values and normal forms of numbers *)

(** A finite number above zero. *)
Definition positive_finite (x : number) : bool :=
  match x with S754_finite false _ _ => true | _ => false end.

(** A number above zero, [Infinity] included. *)
Definition above_zero (x : number) : bool :=
  match x with
  | S754_finite false _ _ | S754_infinity false => true
  | _ => false
  end.

(** Zero or above, and not NaN. *)
Definition nonneg (x : number) : bool :=
  match x with
  | S754_zero false | S754_finite false _ _ | S754_infinity false => true
  | _ => false
  end.

(** The value of a finite number with mantissa [m] and exponent [e], in
    units of the smallest positive number 2^-1074. *)
Definition scaled (m : positive) (e : Z) : Z := Zpos m * 2 ^ (e + 1074).

(** [rounds_to s m2 e1 r]: [r] is the number of sign [s] and magnitude
    [m2 * 2^e1] in its normal form, or the infinity of that sign. *)
Definition rounds_to (s : bool) (m2 e1 : Z) (r : number) : Prop :=
  (m2 = 0 /\ r = S754_zero s)
  \/ (0 < m2 /\ r = S754_infinity s)
  \/ (exists m3 e3, r = S754_finite s m3 e3
                    /\ bounded prec emax m3 e3 = true
                    /\ e1 <= e3 /\ Zpos m3 * 2 ^ (e3 - e1) = m2).

(** The number in normal form whose value is the integer [N], for
    [0 < N < 2^53]. *)
Definition canon (N : Z) : number :=
  S754_finite false (Z.to_pos (N * 2 ^ (53 - Zdigits2 N))) (Zdigits2 N - 53).

(** ** The invariant of the ledger *)

(** What the invariant says of one entry. *)
Definition entry_ok (x : Expense) : Prop :=
  name x <> ""%string /\ category x <> ""%string
  /\ above_zero (amount x) = true /\ valid_binary prec emax (amount x) = true.

Definition ledger_ok (st : State) : Prop := Forall entry_ok (expenses st).

(** ** Concrete runs *)

Definition clock_at (t : Z) : Clock := {| Date_now := t; new_Date := t |}.

Definition call_at (t : Z) (n a c : string) : Call :=
  {| clock := clock_at t; call_name := n; call_amount := a;
     call_category := c |}.

(** The form filled with (Lunch, 200, Food) on an empty ledger. *)
Definition lunch_form : State := fill "Lunch" "200" "Food" initial.

(** The ledger after (Lunch, 200, Food) and (Phone, 4900, Shopping). *)
Definition over_budget : State :=
  run [call_at 1700000000000 "Lunch" "200" "Food";
       call_at 1700000060000 "Phone" "4900" "Shopping"] initial.

(** ** Notions the statements compare the code with *)

(** What follows the ExponentPart at the head of [s]; [s] itself when
    there is none. *)
Definition exponentRest (s : string) : string :=
  match s with
  | String a r =>
      if byte_is a 101 || byte_is a 69 then
        let r' :=
          match r with
          | String b r2 => if byte_is b 43 || byte_is b 45 then r2 else r
          | EmptyString => r
          end in
        let '(_, cnt, rest) := digits 0 0 r' in
        match cnt with
        | O => s
        | S _ => rest
        end
      else s
  | EmptyString => s
  end.

(** The part of a text that [parseFloat] does not read: what follows
    the longest prefix that is a StrDecimalLiteral, and nothing when
    there is no such prefix.  A text is a number as a whole when it has
    a literal and nothing is left unread. *)
Definition unread (s : string) : option string :=
  let t := trimStart s in
  let u :=
    match t with
    | String a r => if byte_is a 43 || byte_is a 45 then r else t
    | EmptyString => t
    end in
  if String.prefix "Infinity" u
  then Some (String.substring 8 (String.length u - 8) u)
  else
    let '(_, ni, r1) := digits 0 0 u in
    let '(nf, r2) :=
      match r1 with
      | String a r =>
          if byte_is a 46 then let '(_, n, r') := digits 0 0 r in (n, r')
          else (O, r1)
      | EmptyString => (O, r1)
      end in
    match (ni + nf)%nat with
    | O => None
    | S _ => Some (exponentRest r2)
    end.


(** ** What the panels render *)

(** One row of the table of expenses: its React key and its three
    cells.  The amount cell holds the number the row prints. *)
Record Row : Type := {
  key : string;
  name_cell : string;
  amount_cell : number;
  category_cell : string
}.

(** The body of the table, under its header line. *)
Inductive TableBody : Type :=
| NoExpensesRecorded
| Rows (rows : list Row).

Definition expenseRows (st : State) : TableBody :=
  if Nat.eqb (List.length (expenses st)) 0 then NoExpensesRecorded
  else Rows (map (fun expense =>
                    {| key := id expense;
                       name_cell := name expense;
                       amount_cell := amount expense;
                       category_cell := category expense |})
               (expenses st)).

(** The sentence of the status line; the amount over budget is the
    number it formats. *)
Inductive BudgetMessage : Type :=
| WithinBudget
| OverBudget (amount : number).

Definition budgetMessage (st : State) : BudgetMessage :=
  if isWithinBudget st then WithinBudget
  else OverBudget (sub (totalSpent st) monthlyBudget).

(** The colour class and the width of the progress bar. *)
Inductive BarColor : Type := bg_primary | bg_destructive.

Definition progressBar (st : State) : BarColor * number :=
  (if isWithinBudget st then bg_primary else bg_destructive,
   Math_min (of_Z 100) (mul (div (totalSpent st) monthlyBudget) (of_Z 100))).

(** * Binary64 rounding *)

Section Digits.

Lemma digits2_pos_size p : digits2_pos p = Pos.size p.
Proof. induction p; simpl; now rewrite ?IHp. Qed.

Lemma Zdigits2_nonneg m : 0 <= Zdigits2 m.
Proof. destruct m; simpl; lia. Qed.

Lemma Zdigits2_bounds m :
  0 < m -> 2 ^ (Zdigits2 m - 1) <= m < 2 ^ Zdigits2 m.
Proof.
  destruct m as [|p|p]; try lia. intros _.
  change (Zdigits2 (Zpos p)) with (Zpos (digits2_pos p)).
  rewrite digits2_pos_size.
  pose proof (Pos.size_gt p) as Hgt. pose proof (Pos.size_le p) as Hle.
  assert (Hz : Zpos (2 ^ Pos.size p) = 2 ^ Zpos (Pos.size p))
    by now rewrite Pos2Z.inj_pow.
  revert Hgt Hle Hz. generalize (2 ^ Pos.size p)%positive. intros q Hgt Hle Hz.
  rewrite <- Hz. split; [|lia].
  assert (Hs : 2 * 2 ^ (Zpos (Pos.size p) - 1) = Zpos q).
  { rewrite Hz, <- Z.pow_succ_r by lia. f_equal. lia. }
  lia.
Qed.

Lemma pow2_pos k : 0 <= k -> 0 < 2 ^ k.
Proof. intros. apply Z.pow_pos_nonneg; lia. Qed.

Lemma Zdigits2_unique m d :
  0 < m -> 2 ^ (d - 1) <= m < 2 ^ d -> Zdigits2 m = d.
Proof.
  intros Hm [Hlo Hhi]. pose proof (Zdigits2_bounds m Hm) as [Blo Bhi].
  pose proof (Zdigits2_nonneg m) as Hn.
  assert (0 <= d).
  { destruct (Z.le_gt_cases 0 d); trivial.
    rewrite Z.pow_neg_r in Hhi by lia. lia. }
  destruct (Z.lt_trichotomy (Zdigits2 m) d) as [Hlt|[Heq|Hgt]]; trivial.
  - assert (2 ^ Zdigits2 m <= 2 ^ (d - 1))
      by (apply Z.pow_le_mono_r; lia). lia.
  - assert (2 ^ d <= 2 ^ (Zdigits2 m - 1))
      by (apply Z.pow_le_mono_r; lia). lia.
Qed.

Lemma Zdigits2_ge m k : 0 <= k -> 2 ^ k <= m -> k + 1 <= Zdigits2 m.
Proof.
  intros Hk Hm. pose proof (pow2_pos k Hk).
  pose proof (Zdigits2_bounds m ltac:(lia)) as [_ Bhi].
  pose proof (Zdigits2_nonneg m).
  destruct (Z.le_gt_cases (k + 1) (Zdigits2 m)); trivial.
  assert (2 ^ Zdigits2 m <= 2 ^ k) by (apply Z.pow_le_mono_r; lia). lia.
Qed.

Lemma Zdigits2_le m d : 0 <= m -> 0 <= d -> m < 2 ^ d -> Zdigits2 m <= d.
Proof.
  intros Hm Hd Hlt. destruct (Z.eq_dec m 0) as [->|]; [simpl; lia|].
  pose proof (Zdigits2_bounds m ltac:(lia)) as [Blo _].
  destruct (Z.le_gt_cases (Zdigits2 m) d); trivial.
  assert (2 ^ d <= 2 ^ (Zdigits2 m - 1)) by (apply Z.pow_le_mono_r; lia).
  lia.
Qed.

Lemma Zdigits2_shiftr m n :
  0 <= m -> 0 <= n -> Zdigits2 (m / 2 ^ n) = Z.max (Zdigits2 m - n) 0.
Proof.
  intros Hm Hn. pose proof (pow2_pos n Hn) as Hp.
  destruct (Z.eq_dec m 0) as [->|Hm0].
  { rewrite Z.div_0_l by lia. simpl. lia. }
  pose proof (Zdigits2_bounds m ltac:(lia)) as [Blo Bhi].
  pose proof (Zdigits2_nonneg m) as Hd.
  destruct (Z.le_gt_cases (Zdigits2 m) n) as [Hle|Hgt].
  - rewrite Z.div_small.
    + simpl. lia.
    + split; [lia|].
      assert (2 ^ Zdigits2 m <= 2 ^ n) by (apply Z.pow_le_mono_r; lia).
      lia.
  - rewrite Z.max_l by lia.
    assert (Hlo : 2 ^ (Zdigits2 m - n - 1) <= m / 2 ^ n).
    { apply Z.div_le_lower_bound; trivial.
      rewrite <- Z.pow_add_r by lia.
      now replace (n + (Zdigits2 m - n - 1)) with (Zdigits2 m - 1) by lia. }
    assert (Hhi : m / 2 ^ n < 2 ^ (Zdigits2 m - n)).
    { apply Z.div_lt_upper_bound; trivial.
      rewrite <- Z.pow_add_r by lia.
      now replace (n + (Zdigits2 m - n)) with (Zdigits2 m) by lia. }
    apply Zdigits2_unique.
    + pose proof (pow2_pos (Zdigits2 m - n - 1) ltac:(lia)). lia.
    + split; trivial.
Qed.

Lemma Zdigits2_shiftl m n :
  0 < m -> 0 <= n -> Zdigits2 (m * 2 ^ n) = Zdigits2 m + n.
Proof.
  intros Hm Hn. pose proof (pow2_pos n Hn) as Hp.
  pose proof (Zdigits2_bounds m Hm) as [Blo Bhi].
  pose proof (Zdigits2_nonneg m) as Hd.
  assert (1 <= Zdigits2 m).
  { destruct (Z.le_gt_cases 1 (Zdigits2 m)); trivial.
    replace (Zdigits2 m) with 0 in Bhi by lia. simpl in Bhi. lia. }
  apply Zdigits2_unique; [nia|].
  replace (Zdigits2 m + n - 1) with (Zdigits2 m - 1 + n) by lia.
  rewrite !Z.pow_add_r by lia. nia.
Qed.

Lemma Zdigits2_succ m :
  0 <= m ->
  Zdigits2 (m + 1) = Zdigits2 m
  \/ (m + 1 = 2 ^ Zdigits2 m /\ Zdigits2 (m + 1) = Zdigits2 m + 1).
Proof.
  intros Hm. destruct (Z.eq_dec m 0) as [->|Hm0]; [right; now simpl|].
  pose proof (Zdigits2_bounds m ltac:(lia)) as [Blo Bhi].
  pose proof (Zdigits2_nonneg m) as Hd.
  destruct (Z.eq_dec (m + 1) (2 ^ Zdigits2 m)) as [He|Hne].
  - right. split; trivial. apply Zdigits2_unique; [lia|].
    replace (Zdigits2 m + 1 - 1) with (Zdigits2 m) by lia.
    rewrite Z.pow_add_r by lia. lia.
  - left. apply Zdigits2_unique; lia.
Qed.

End Digits.

Section Rounding.

Local Abbreviation fexp := (SpecFloat.fexp prec emax).

Lemma fexp_eq e : fexp e = Z.max (e - 53) (-1074).
Proof. reflexivity. Qed.

Lemma shr_m_shr_1 mrs : 0 <= shr_m mrs -> shr_m (shr_1 mrs) = shr_m mrs / 2.
Proof.
  destruct mrs as [m r s]. simpl. intros Hm.
  destruct m as [|[p|p|]|p]; cbn [shr_m]; try lia; try reflexivity;
    (apply Z.div_unique with 1; lia) || (apply Z.div_unique with 0; lia).
Qed.

Lemma shr_m_iter p : forall mrs,
  0 <= shr_m mrs ->
  shr_m (iter_pos shr_1 p mrs) = shr_m mrs / 2 ^ Zpos p.
Proof.
  assert (Hdiv : forall a b c, 0 <= a -> 0 < b -> 0 < c ->
                               a / b / c = a / (b * c)).
  { intros. apply Z.div_div; lia. }
  induction p as [p IH|p IH|]; intros mrs Hm; simpl iter_pos.
  - pose proof (pow2_pos (Zpos p) ltac:(lia)) as Hp.
    assert (H1 : 0 <= shr_m (shr_1 mrs)).
    { rewrite shr_m_shr_1 by trivial. apply Z.div_pos; lia. }
    assert (H2 : 0 <= shr_m (iter_pos shr_1 p (shr_1 mrs))).
    { rewrite IH by trivial. apply Z.div_pos; lia. }
    rewrite IH, IH, shr_m_shr_1 by trivial.
    rewrite !Hdiv; try lia.
    + f_equal.
      replace (Zpos p~1) with (1 + Zpos p + Zpos p) by lia.
      rewrite !Z.pow_add_r by lia. lia.
    + apply Z.div_pos; lia.
  - pose proof (pow2_pos (Zpos p) ltac:(lia)) as Hp.
    assert (H2 : 0 <= shr_m (iter_pos shr_1 p mrs)).
    { rewrite IH by trivial. apply Z.div_pos; lia. }
    rewrite IH, IH by trivial.
    rewrite Hdiv; try lia.
    f_equal.
    replace (Zpos p~0) with (Zpos p + Zpos p) by lia.
    rewrite Z.pow_add_r by lia. lia.
  - now rewrite shr_m_shr_1.
Qed.

Lemma shr_m_of_loc m l : shr_m (shr_record_of_loc m l) = m.
Proof. destruct l as [|[]]; reflexivity. Qed.

(** Shifting to the exponent [fexp] asks for: the mantissa is divided
    by the power of two dropped, rounding down. *)
Lemma shr_fexp_spec m e l :
  0 <= m ->
  let n := Z.max (fexp (Zdigits2 m + e) - e) 0 in
  exists mrs, shr_fexp prec emax m e l = (mrs, e + n)
              /\ shr_m mrs = m / 2 ^ n.
Proof.
  intros Hm n. unfold shr_fexp, shr.
  destruct (fexp (Zdigits2 m + e) - e) as [|p|p] eqn:Hn; subst n.
  - eexists; split; [f_equal; lia|].
    rewrite shr_m_of_loc. simpl. now rewrite Z.div_1_r.
  - eexists; split; [f_equal; lia|].
    rewrite shr_m_iter by (rewrite shr_m_of_loc; trivial).
    rewrite shr_m_of_loc. f_equal.
  - eexists; split; [f_equal; lia|].
    rewrite shr_m_of_loc. simpl. now rewrite Z.div_1_r.
Qed.

Lemma round_nearest_even_bounds m l :
  m <= round_nearest_even m l <= m + 1.
Proof.
  destruct l as [|[]]; simpl; try lia. destruct (Z.even m); lia.
Qed.

Lemma fexp_after_shift m e :
  0 <= m -> e <= fexp (Zdigits2 m + e) ->
  fexp (Zdigits2 (m / 2 ^ (fexp (Zdigits2 m + e) - e))
        + fexp (Zdigits2 m + e)) = fexp (Zdigits2 m + e).
Proof.
  intros Hm He. rewrite Zdigits2_shiftr by lia.
  pose proof (Zdigits2_nonneg m). rewrite !fexp_eq in *. lia.
Qed.

Lemma bounded_intro (p : positive) e :
  fexp (Zdigits2 (Zpos p) + e) = e -> e <= 971 -> bounded prec emax p e = true.
Proof.
  intros Hc He. unfold bounded, canonical_mantissa.
  change (Zpos (digits2_pos p)) with (Zdigits2 (Zpos p)).
  rewrite Hc, Z.eqb_refl. simpl. apply Z.leb_le. exact He.
Qed.

(** The rounding of [m * 2^e] with location [l], when [e] is not above
    the exponent of the format at that magnitude: the mantissa is
    brought to that exponent rounding down, and is kept or increased by
    one. *)
Lemma binary_round_aux_spec s m e l :
  0 <= m -> e <= fexp (Zdigits2 m + e) ->
  exists m2,
    m / 2 ^ (fexp (Zdigits2 m + e) - e) <= m2
      <= m / 2 ^ (fexp (Zdigits2 m + e) - e) + 1
    /\ rounds_to s m2 (fexp (Zdigits2 m + e))
                 (binary_round_aux prec emax s m e l).
Proof.
  intros Hm He. unfold binary_round_aux.
  destruct (shr_fexp_spec m e l Hm) as (mrs & E1 & M1). rewrite E1.
  pose proof (fexp_after_shift m e Hm He) as Hcan.
  rewrite Z.max_l in M1 by lia.
  replace (e + Z.max (fexp (Zdigits2 m + e) - e) 0)
    with (fexp (Zdigits2 m + e)) by lia.
  set (e1 := fexp (Zdigits2 m + e)) in *.
  assert (Hm1 : 0 <= shr_m mrs).
  { rewrite M1. apply Z.div_pos; [lia|apply pow2_pos; lia]. }
  rewrite <- M1 in *. set (m1 := shr_m mrs) in *.
  pose proof (round_nearest_even_bounds m1 (loc_of_shr_record mrs)) as Hr.
  set (m2 := round_nearest_even m1 (loc_of_shr_record mrs)) in *.
  exists m2. split; [exact Hr|].
  destruct (shr_fexp_spec m2 e1 loc_Exact ltac:(lia)) as (mrs2 & E2 & M2).
  rewrite E2.
  assert (He1 : -1074 <= e1) by (unfold e1; rewrite fexp_eq; lia).
  assert (Hcases : fexp (Zdigits2 m2 + e1) = e1
                   \/ (m2 = 2 ^ 53 /\ fexp (Zdigits2 m2 + e1) = e1 + 1)).
  { assert (Hm2 : m2 = m1 \/ m2 = m1 + 1) by lia.
    destruct Hm2 as [->| ->]; [now left|].
    destruct (Zdigits2_succ m1 Hm1) as [->|[Hp Hd]]; [now left|].
    rewrite Hd. rewrite fexp_eq in Hcan |- *.
    pose proof (Zdigits2_nonneg m1).
    destruct (Z.eq_dec (Zdigits2 m1) 53) as [E53|N53].
    - right. rewrite Hp, E53. split; [reflexivity|lia].
    - left. lia. }
  destruct Hcases as [Hc|[Hp Hc]]; rewrite Hc in *.
  - replace (e1 - e1) with 0 in M2 by lia. simpl in M2.
    rewrite Z.div_1_r in M2. rewrite M2.
    replace (e1 + Z.max (e1 - e1) 0) with e1 by lia.
    destruct m2 as [|p|p]; [left; now split| |lia].
    destruct (Z.leb_spec e1 (emax - prec)) as [Hle|Hgt].
    + right; right. exists p, e1. split; [reflexivity|].
      split; [apply bounded_intro; [exact Hc|exact Hle]|].
      split; [lia|]. rewrite Z.sub_diag. simpl. lia.
    + right; left. split; [lia|reflexivity].
  - replace (e1 + 1 - e1) with 1 in * by lia.
    change (Z.max 1 0) with 1 in *. rewrite M2, Hp.
    change (2 ^ 53 / 2 ^ 1) with (Zpos 4503599627370496).
    cbv iota.
    destruct (Z.leb_spec (e1 + 1) (emax - prec)) as [Hle|Hgt].
    + right; right. exists 4503599627370496%positive, (e1 + 1).
      split; [reflexivity|].
      split.
      { apply bounded_intro; [|exact Hle].
        change (Zdigits2 (Zpos 4503599627370496)) with 53.
        rewrite fexp_eq. lia. }
      split; [lia|]. replace (e1 + 1 - e1) with 1 by lia. reflexivity.
    + right; left. split; [|reflexivity].
      pose proof (pow2_pos 53 ltac:(lia)). lia.
Qed.

(** Whatever the exponent, rounding a magnitude gives a number of the
    sign asked for, never NaN. *)
Lemma binary_round_aux_sign s m e l :
  0 <= m ->
  binary_round_aux prec emax s m e l = S754_zero s
  \/ binary_round_aux prec emax s m e l = S754_infinity s
  \/ exists m3 e3, binary_round_aux prec emax s m e l = S754_finite s m3 e3.
Proof.
  intros Hm. unfold binary_round_aux.
  destruct (shr_fexp_spec m e l Hm) as (mrs & E1 & M1). rewrite E1.
  assert (Hm1 : 0 <= shr_m mrs).
  { rewrite M1. apply Z.div_pos; [lia|apply pow2_pos; lia]. }
  pose proof (round_nearest_even_bounds (shr_m mrs) (loc_of_shr_record mrs)).
  set (m2 := round_nearest_even (shr_m mrs) (loc_of_shr_record mrs)) in *.
  destruct (shr_fexp_spec m2 (e + Z.max (fexp (Zdigits2 m + e) - e) 0)
              loc_Exact ltac:(lia)) as (mrs2 & E2 & M2).
  rewrite E2.
  assert (Hm3 : 0 <= shr_m mrs2).
  { rewrite M2. apply Z.div_pos; [lia|apply pow2_pos; lia]. }
  destruct (shr_m mrs2) as [|p|p]; [now left| |lia].
  match goal with |- context [if ?b then _ else _] => destruct b end;
    [right; right; eauto|right; now left].
Qed.

Lemma iter_xO m d : Zpos (Pos.iter xO m d) = Zpos m * 2 ^ Zpos d.
Proof.
  induction d as [|d IH] using Pos.peano_ind.
  - simpl. lia.
  - rewrite Pos.iter_succ, Pos2Z.inj_xO, IH, Pos2Z.inj_succ.
    rewrite Z.pow_succ_r by lia. lia.
Qed.

Lemma shl_align_spec mx ex ex' :
  exists mz, shl_align mx ex ex' = (mz, Z.min ex ex')
             /\ Zpos mz = Zpos mx * 2 ^ (ex - Z.min ex ex').
Proof.
  unfold shl_align. destruct (ex' - ex) as [|d|d] eqn:Hd.
  - exists mx. replace (Z.min ex ex') with ex by lia.
    rewrite Z.sub_diag. simpl. split; [reflexivity|lia].
  - exists mx. replace (Z.min ex ex') with ex by lia.
    rewrite Z.sub_diag. simpl. split; [reflexivity|lia].
  - exists (Pos.iter xO mx d). replace (Z.min ex ex') with ex' by lia.
    split; [reflexivity|]. rewrite iter_xO. f_equal. f_equal. lia.
Qed.

Lemma scaled_pos m e : -1074 <= e -> 0 < scaled m e.
Proof.
  intros. unfold scaled. pose proof (pow2_pos (e + 1074) ltac:(lia)). nia.
Qed.

(** The rounding of an exact positive value [M * 2^ez]: the mantissa is
    the value in units of the exponent of the format, rounded down or
    up, and is not zero. *)
Lemma binary_round_spec s M ez :
  -1074 <= ez ->
  exists m2,
    0 < m2
    /\ scaled M ez / 2 ^ (fexp (Zdigits2 (Zpos M) + ez) + 1074) <= m2
    /\ rounds_to s m2 (fexp (Zdigits2 (Zpos M) + ez))
                 (binary_round prec emax s M ez).
Proof.
  intros Hez. unfold binary_round.
  change (Zpos (digits2_pos M)) with (Zdigits2 (Zpos M)).
  set (e1 := fexp (Zdigits2 (Zpos M) + ez)).
  destruct (shl_align_spec M ez e1) as (mz & -> & Hmz).
  set (e0 := Z.min ez e1) in *.
  assert (He1 : -1074 <= e1) by (unfold e1; rewrite fexp_eq; lia).
  assert (He0 : -1074 <= e0 /\ e0 <= e1 /\ e0 <= ez) by (unfold e0; lia).
  clearbody e0.
  assert (Hd : Zdigits2 (Zpos mz) + e0 = Zdigits2 (Zpos M) + ez).
  { rewrite Hmz, Zdigits2_shiftl by lia. lia. }
  assert (Hf : fexp (Zdigits2 (Zpos mz) + e0) = e1) by now rewrite Hd.
  clearbody e1.
  destruct (binary_round_aux_spec s (Zpos mz) e0 loc_Exact ltac:(lia)
              ltac:(rewrite Hf; lia)) as (m2 & Hb & Hr).
  rewrite Hf in Hb, Hr.
  assert (Hq : scaled M ez / 2 ^ (e1 + 1074) = Zpos mz / 2 ^ (e1 - e0)).
  { unfold scaled.
    replace (Zpos M * 2 ^ (ez + 1074)) with (Zpos mz * 2 ^ (e0 + 1074)).
    2:{ rewrite Hmz, <- Z.mul_assoc, <- Z.pow_add_r by lia.
        f_equal. f_equal. lia. }
    replace (e1 + 1074) with (e1 - e0 + (e0 + 1074)) by lia.
    rewrite (Z.pow_add_r 2 (e1 - e0) (e0 + 1074)) by lia.
    apply Z.div_mul_cancel_r.
    - pose proof (pow2_pos (e1 - e0) ltac:(lia)). lia.
    - pose proof (pow2_pos (e0 + 1074) ltac:(lia)). lia. }
  exists m2. rewrite Hq. split; [|split; [lia|exact Hr]].
  assert (1 <= Zpos mz / 2 ^ (e1 - e0)); [|lia].
  pose proof (Zdigits2_shiftr (Zpos mz) (e1 - e0) ltac:(lia) ltac:(lia)) as Hs.
  pose proof (Zdigits2_bounds (Zpos mz) ltac:(lia)) as [Blo _].
  assert (Hd1 : 1 <= Zdigits2 (Zpos mz))
    by (change (Zdigits2 (Zpos mz)) with (Zpos (digits2_pos mz)); lia).
  assert (Hsm : e1 - e0 < Zdigits2 (Zpos mz)).
  { rewrite fexp_eq in Hf. clear - Hf He0 Hd1. lia. }
  destruct (Z.eq_dec (Zpos mz / 2 ^ (e1 - e0)) 0) as [E0|N0].
  - rewrite E0 in Hs. change (Zdigits2 0) with 0 in Hs.
    clear - Hs Hsm. lia.
  - assert (H0 : 0 <= e1 - e0) by (clear - He0; lia).
    pose proof (Z.div_pos (Zpos mz) (2 ^ (e1 - e0)) (Pos2Z.is_nonneg mz)
                  (pow2_pos _ H0)) as Hp.
    clear - Hp N0. lia.
Qed.

Lemma bounded_inv m e :
  bounded prec emax m e = true ->
  fexp (Zdigits2 (Zpos m) + e) = e /\ e <= 971.
Proof.
  unfold bounded, canonical_mantissa. intros H.
  apply andb_true_iff in H as [Hc He].
  apply Z.eqb_eq in Hc. apply Z.leb_le in He. split; [exact Hc|exact He].
Qed.

Lemma bounded_facts m e :
  bounded prec emax m e = true ->
  -1074 <= e /\ Zpos m < 2 ^ 53 /\ (-1074 < e -> 2 ^ 52 <= Zpos m).
Proof.
  intros H. apply bounded_inv in H as [Hc _]. rewrite fexp_eq in Hc.
  pose proof (Zdigits2_bounds (Zpos m) ltac:(lia)) as [Blo Bhi].
  assert (Hd1 : 1 <= Zdigits2 (Zpos m))
    by (change (Zdigits2 (Zpos m)) with (Zpos (digits2_pos m)); lia).
  split; [lia|]. split.
  - assert (2 ^ Zdigits2 (Zpos m) <= 2 ^ 53)
      by (apply Z.pow_le_mono_r; lia). lia.
  - intros He. replace (Zdigits2 (Zpos m)) with 53 in Blo by lia. exact Blo.
Qed.

(** On numbers in normal form the comparison of the format agrees with
    the order of the values. *)
Lemma le_finite_of_scaled m1 e1 m2 e2 :
  bounded prec emax m1 e1 = true -> bounded prec emax m2 e2 = true ->
  scaled m1 e1 <= scaled m2 e2 ->
  le (S754_finite false m1 e1) (S754_finite false m2 e2) = true.
Proof.
  intros B1 B2 Hs. unfold le, SFleb, SFcompare.
  destruct (Z.compare_spec e1 e2) as [->|Hlt|Hgt]; trivial.
  - change (Pos.compare_cont Eq m1 m2) with (Pos.compare m1 m2).
    destruct (Pos.compare_spec m1 m2) as [_|_|Hm]; trivial.
    exfalso. unfold scaled in Hs.
    apply bounded_facts in B2 as [He2 _].
    pose proof (pow2_pos (e2 + 1074) ltac:(lia)). nia.
  - exfalso. unfold scaled in Hs.
    apply bounded_facts in B1 as (He1 & _ & Hn1).
    apply bounded_facts in B2 as (He2 & Hb2 & _).
    specialize (Hn1 ltac:(lia)).
    pose proof (pow2_pos (e2 + 1074) ltac:(lia)) as Hp.
    assert (Hpow : 2 * 2 ^ (e2 + 1074) <= 2 ^ (e1 + 1074)).
    { rewrite <- Z.pow_succ_r by lia. apply Z.pow_le_mono_r; lia. }
    change (2 ^ 52) with 4503599627370496 in Hn1.
    change (2 ^ 53) with 9007199254740992 in Hb2.
    revert Hs Hpow Hp Hn1 Hb2.
    generalize (2 ^ (e2 + 1074)) (2 ^ (e1 + 1074)). intros. nia.
Qed.

Lemma rounds_to_scaled s m2 e1 m3 e3 :
  -1074 <= e1 -> rounds_to s m2 e1 (S754_finite s m3 e3) ->
  bounded prec emax m3 e3 = true /\ scaled m3 e3 = m2 * 2 ^ (e1 + 1074).
Proof.
  intros He1 [[_ H]|[[_ H]|(m & e & H & Hb & He & Hv)]]; try discriminate.
  injection H as -> ->. split; [exact Hb|]. unfold scaled.
  rewrite <- Hv, <- Z.mul_assoc, <- Z.pow_add_r by lia.
  f_equal. f_equal. lia.
Qed.

(** Rounding a positive value that is at least a number of the format
    gives at least that number. *)
Lemma binary_round_ge M ez mx ex :
  -1074 <= ez -> bounded prec emax mx ex = true ->
  scaled mx ex <= scaled M ez ->
  above_zero (binary_round prec emax false M ez) = true
  /\ valid_binary prec emax (binary_round prec emax false M ez) = true
  /\ le (S754_finite false mx ex) (binary_round prec emax false M ez) = true.
Proof.
  intros Hez Bx Hle.
  destruct (binary_round_spec false M ez Hez) as (m2 & Hpos & Hlo & Hr).
  assert (He1 : -1074 <= fexp (Zdigits2 (Zpos M) + ez))
    by (rewrite fexp_eq; lia).
  destruct (binary_round prec emax false M ez) as [s|s| |s m3 e3] eqn:Er.
  - destruct Hr as [[H0 _]|[[_ H]|(m & e & H & _)]]; try discriminate. lia.
  - destruct Hr as [[_ H]|[[_ H]|(m & e & H & _)]]; try discriminate.
    injection H as ->. now repeat split.
  - destruct Hr as [[_ H]|[[_ H]|(m & e & H & _)]]; discriminate.
  - assert (s = false) as ->.
    { destruct Hr as [[_ H]|[[_ H]|(m & e & H & _)]]; try discriminate.
      now injection H. }
    destruct (rounds_to_scaled _ _ _ _ _ He1 Hr) as [Bz Hv].
    split; [reflexivity|]. split; [exact Bz|].
    apply le_finite_of_scaled; trivial. rewrite Hv.
    pose proof (bounded_facts _ _ Bx) as (Hex & Hbx & Hnx).
    set (e1 := fexp (Zdigits2 (Zpos M) + ez)) in *.
    pose proof (pow2_pos (e1 + 1074) ltac:(lia)) as Hp.
    destruct (Z.le_gt_cases e1 ex) as [Hc|Hc].
    + (* the number is a multiple of the unit of the result *)
      assert (Hx : scaled mx ex = 2 ^ (e1 + 1074) * (Zpos mx * 2 ^ (ex - e1))).
      { unfold scaled.
        rewrite (Z.mul_comm (2 ^ (e1 + 1074))), <- Z.mul_assoc,
          <- Z.pow_add_r by lia.
        f_equal. f_equal. lia. }
      assert (Hk : Zpos mx * 2 ^ (ex - e1) <= scaled M ez / 2 ^ (e1 + 1074)).
      { apply Z.div_le_lower_bound; [exact Hp|]. rewrite <- Hx. exact Hle. }
      rewrite Hx. clear - Hk Hlo Hp. nia.
    + (* the result has a full mantissa at a larger exponent *)
      assert (Hd : Zdigits2 (Zpos M) + ez - 53 = e1).
      { unfold e1 in *. rewrite fexp_eq in *. clear - Hc Hex. lia. }
      pose proof (Zdigits2_bounds (Zpos M) ltac:(lia)) as [Blo _].
      assert (Hs : 2 ^ (e1 + 1074) * 2 ^ 52 <= scaled M ez).
      { unfold scaled. rewrite <- Z.pow_add_r by lia.
        replace (e1 + 1074 + 52) with (Zdigits2 (Zpos M) - 1 + (ez + 1074))
          by lia.
        assert (1 <= Zdigits2 (Zpos M))
          by (change (Zdigits2 (Zpos M)) with (Zpos (digits2_pos M)); lia).
        rewrite Z.pow_add_r by lia.
        apply Z.mul_le_mono_nonneg_r; [|exact Blo].
        apply Z.lt_le_incl, pow2_pos. lia. }
      assert (Hk : 2 ^ 52 <= scaled M ez / 2 ^ (e1 + 1074))
        by (apply Z.div_le_lower_bound; [exact Hp|exact Hs]).
      assert (Hpow : 2 * 2 ^ (ex + 1074) <= 2 ^ (e1 + 1074)).
      { rewrite <- Z.pow_succ_r by lia. apply Z.pow_le_mono_r; lia. }
      pose proof (pow2_pos (ex + 1074) ltac:(lia)) as Hpx.
      unfold scaled at 1.
      change (2 ^ 52) with 4503599627370496 in Hk.
      change (2 ^ 53) with 9007199254740992 in Hbx.
      clear - Hk Hlo Hpow Hpx Hbx.
      revert Hk Hlo Hpow Hpx.
      generalize (2 ^ (ex + 1074)) (2 ^ (e1 + 1074))
        (scaled M ez / 2 ^ (e1 + 1074)).
      intros. nia.
Qed.

Lemma shl_align_scaled mx ex ez :
  -1074 <= ez -> ez <= ex ->
  exists a, shl_align mx ex ez = (a, ez) /\ scaled a ez = scaled mx ex.
Proof.
  intros Hez Hle. destruct (shl_align_spec mx ex ez) as (a & Ea & Ha).
  replace (Z.min ex ez) with ez in * by lia.
  exists a. split; [exact Ea|]. unfold scaled.
  rewrite Ha, <- Z.mul_assoc, <- Z.pow_add_r by lia. f_equal. f_equal. lia.
Qed.

(** Adding a positive number never gives less. *)
Lemma add_ge x y :
  nonneg x = true -> valid_binary prec emax x = true ->
  above_zero y = true -> valid_binary prec emax y = true ->
  above_zero (add x y) = true
  /\ valid_binary prec emax (add x y) = true
  /\ le x (add x y) = true.
Proof.
  intros Px Vx Py Vy.
  destruct x as [[]|[]| |[] mx ex]; try discriminate;
    destruct y as [[]|[]| |[] my ey]; try discriminate;
    try (now repeat split).
  unfold add, SFadd. cbn [cond_Zopp]. cbn [valid_binary] in Vx, Vy.
  pose proof (bounded_facts _ _ Vx) as (Hex & _).
  pose proof (bounded_facts _ _ Vy) as (Hey & _).
  destruct (shl_align_scaled mx ex (Z.min ex ey)) as (ax & -> & Hax); try lia.
  destruct (shl_align_scaled my ey (Z.min ex ey)) as (ay & -> & Hay); try lia.
  cbn [fst]. change (Zpos ax + Zpos ay) with (Zpos (ax + ay)).
  cbn [binary_normalize].
  apply binary_round_ge; [lia|exact Vx|].
  rewrite <- Hax. unfold scaled. rewrite Pos2Z.inj_add.
  pose proof (pow2_pos (Z.min ex ey + 1074) ltac:(lia)). nia.
Qed.

(** Taking a smaller number away leaves a number above zero. *)
Lemma sub_above_zero mx ex my ey :
  bounded prec emax mx ex = true -> bounded prec emax my ey = true ->
  le (S754_finite false mx ex) (S754_finite false my ey) = false ->
  above_zero (sub (S754_finite false mx ex) (S754_finite false my ey)) = true.
Proof.
  intros Vx Vy Hgt.
  assert (Hs : scaled my ey < scaled mx ex).
  { destruct (Z.lt_ge_cases (scaled my ey) (scaled mx ex)) as [H|H]; trivial.
    rewrite (le_finite_of_scaled _ _ _ _ Vx Vy) in Hgt by lia. discriminate. }
  unfold sub, SFsub. cbn [cond_Zopp].
  pose proof (bounded_facts _ _ Vx) as (Hex & _).
  pose proof (bounded_facts _ _ Vy) as (Hey & _).
  destruct (shl_align_scaled mx ex (Z.min ex ey)) as (ax & -> & Hax); try lia.
  destruct (shl_align_scaled my ey (Z.min ex ey)) as (ay & -> & Hay); try lia.
  cbn [fst]. rewrite <- Hax, <- Hay in Hs. unfold scaled in Hs.
  pose proof (pow2_pos (Z.min ex ey + 1074) ltac:(lia)) as Hp.
  assert (Hd : 0 < Zpos ax - Zpos ay) by nia.
  destruct (Zpos ax - Zpos ay) as [|d|d]; try lia.
  cbn [binary_normalize].
  destruct (binary_round_spec false d (Z.min ex ey) ltac:(lia))
    as (m2 & Hpos & _ & [[H0 _]|[[_ ->]|(m & e & -> & _)]]);
    [lia|reflexivity|reflexivity].
Qed.

Lemma rounds_to_valid s m2 e1 r :
  rounds_to s m2 e1 r -> valid_binary prec emax r = true.
Proof.
  intros [[_ ->]|[[_ ->]|(m & e & -> & Hb & _)]]; trivial.
Qed.

(** The quotient of two finite numbers is in normal form, whatever the
    size of their mantissas. *)
Lemma SFdiv_finite_valid sx mx ex sy my ey :
  valid_binary prec emax
    (SFdiv prec emax (S754_finite sx mx ex) (S754_finite sy my ey)) = true.
Proof.
  unfold SFdiv, SFdiv_core_binary.
  set (d1 := Zdigits2 (Zpos mx)). set (d2 := Zdigits2 (Zpos my)).
  set (e' := Z.min (fexp (d1 + ex - (d2 + ey))) (ex - ey)).
  set (sh := ex - ey - e').
  assert (Hsh : 0 <= sh) by (unfold sh, e'; lia).
  set (m' := match sh with
             | 0 => Zpos mx
             | Zpos _ => Z.shiftl (Zpos mx) sh
             | Zneg _ => 0
             end).
  assert (Hm' : m' = Zpos mx * 2 ^ sh).
  { unfold m'. destruct sh as [|p|p]; [simpl; lia| |lia].
    now rewrite Z.shiftl_mul_pow2. }
  clearbody m'.
  pose proof (Z_div_mod m' (Zpos my) ltac:(lia)) as Hdm.
  unfold Z.div. destruct (Z.div_eucl m' (Zpos my)) as [q r] eqn:Edm.
  destruct Hdm as [Hq Hr].
  assert (Hq0 : 0 <= q).
  { pose proof (pow2_pos sh Hsh). nia. }
  assert (Hdig : d1 + sh - d2 <= Zdigits2 q).
  { pose proof (Zdigits2_nonneg q).
    destruct (Z.le_gt_cases (d1 + sh - d2) 0) as [|Hk]; [lia|].
    pose proof (Zdigits2_bounds (Zpos mx) ltac:(lia)) as [B1 _].
    pose proof (Zdigits2_bounds (Zpos my) ltac:(lia)) as [_ B2].
    fold d1 in B1. fold d2 in B2.
    assert (Hd1 : 1 <= d1)
      by (unfold d1; change (Zdigits2 (Zpos mx)) with (Zpos (digits2_pos mx));
          lia).
    assert (Hd2 : 1 <= d2)
      by (unfold d2; change (Zdigits2 (Zpos my)) with (Zpos (digits2_pos my));
          lia).
    enough (2 ^ (d1 + sh - d2 - 1) <= q)
      by (pose proof (Zdigits2_ge q (d1 + sh - d2 - 1) ltac:(lia) H0); lia).
    assert (Hpow : 2 ^ (d1 + sh - d2 - 1) * 2 ^ d2 = 2 ^ (d1 - 1) * 2 ^ sh).
    { rewrite <- !Z.pow_add_r by lia. f_equal. lia. }
    pose proof (pow2_pos sh Hsh) as Hps.
    pose proof (pow2_pos (d1 + sh - d2 - 1) ltac:(lia)) as Hpk.
    clearbody d1 d2. clear - Hq Hr Hm' B1 B2 Hpow Hps Hpk.
    subst m'. revert Hq Hpow B1 B2 Hps Hpk.
    generalize (2 ^ (d1 + sh - d2 - 1)) (2 ^ d2) (2 ^ (d1 - 1)) (2 ^ sh).
    intros k a b c. intros. nia. }
  assert (He : e' <= fexp (Zdigits2 q + e')).
  { pose proof (fexp_eq (Zdigits2 q + e')) as F1.
    pose proof (fexp_eq (d1 + ex - (d2 + ey))) as F2.
    unfold sh in Hdig.
    assert (e' <= fexp (d1 + ex - (d2 + ey))) by (unfold e'; lia).
    clearbody e' d1 d2. lia. }
  destruct (binary_round_aux_spec (xorb sx sy) q e'
              (new_location (Zpos my) r) Hq0 He) as (m2 & _ & Hrt).
  exact (rounds_to_valid _ _ _ _ Hrt).
Qed.

Lemma SFdiv_finite_sign mx ex my ey :
  nonneg (SFdiv prec emax (S754_finite false mx ex) (S754_finite false my ey))
  = true.
Proof.
  unfold SFdiv, SFdiv_core_binary.
  match goal with
  | |- context [Z.div_eucl ?a ?b] =>
      assert (Hm : 0 <= a);
      [|pose proof (Z_div_mod a b ltac:(lia)) as Hdm;
        destruct (Z.div_eucl a b) as [q r]; destruct Hdm as [Hq Hr]]
  end.
  { match goal with |- 0 <= match ?s with _ => _ end => destruct s end;
      try lia. apply Z.shiftl_nonneg. lia. }
  assert (Hq0 : 0 <= q) by nia.
  cbn [xorb].
  match goal with
  | |- context [binary_round_aux _ _ ?s ?m ?e ?l] =>
      destruct (binary_round_aux_sign s m e l Hq0) as [->|[->|(? & ? & ->)]]
  end; reflexivity.
Qed.


Lemma mul_nonneg x my ey :
  nonneg x = true -> nonneg (mul x (S754_finite false my ey)) = true.
Proof.
  destruct x as [[]|[]| |[] mx ex]; try discriminate; intros _;
    try reflexivity.
  unfold mul, SFmul. cbn [xorb].
  destruct (binary_round_aux_sign false (Zpos (mx * my)) (ex + ey) loc_Exact
              ltac:(lia)) as [->|[->|(? & ? & ->)]]; reflexivity.
Qed.

Lemma div_nonneg x my ey :
  nonneg x = true -> nonneg (div x (S754_finite false my ey)) = true.
Proof.
  destruct x as [[]|[]| |[] mx ex]; try discriminate; intros _;
    try reflexivity.
  apply SFdiv_finite_sign.
Qed.


End Rounding.

(** * Exact results *)

Section Exact.

Local Abbreviation fexp := (SpecFloat.fexp prec emax).

Lemma shr_1_even j :
  0 <= j ->
  shr_1 {| shr_m := 2 * j; shr_r := false; shr_s := false |}
  = {| shr_m := j; shr_r := false; shr_s := false |}.
Proof. destruct j as [|q|q]; try lia; reflexivity. Qed.

(** Shifting out bits that are all zero loses nothing. *)
Lemma shr_iter_exact p : forall k,
  0 <= k ->
  iter_pos shr_1 p {| shr_m := k * 2 ^ Zpos p; shr_r := false; shr_s := false |}
  = {| shr_m := k; shr_r := false; shr_s := false |}.
Proof.
  induction p as [p IH|p IH|]; intros k Hk; cbn [iter_pos].
  - pose proof (pow2_pos (Zpos p) ltac:(lia)) as Hp.
    replace (k * 2 ^ Zpos p~1) with (2 * (k * 2 ^ Zpos p * 2 ^ Zpos p)).
    2:{ replace (Zpos p~1) with (1 + Zpos p + Zpos p) by lia.
        rewrite !Z.pow_add_r by lia. lia. }
    rewrite shr_1_even by nia. rewrite IH by nia. now rewrite IH.
  - pose proof (pow2_pos (Zpos p) ltac:(lia)) as Hp.
    replace (k * 2 ^ Zpos p~0) with (k * 2 ^ Zpos p * 2 ^ Zpos p).
    2:{ replace (Zpos p~0) with (Zpos p + Zpos p) by lia.
        rewrite Z.pow_add_r by lia. lia. }
    rewrite IH by nia. now rewrite IH.
  - replace (k * 2 ^ 1) with (2 * k) by lia. now apply shr_1_even.
Qed.

Lemma shr_exact k e n :
  0 <= k -> 0 <= n ->
  shr {| shr_m := k * 2 ^ n; shr_r := false; shr_s := false |} e n
  = ({| shr_m := k; shr_r := false; shr_s := false |}, e + n).
Proof.
  intros Hk Hn. unfold shr. destruct n as [|p|p]; try lia.
  - simpl. now rewrite Z.mul_1_r, Z.add_0_r.
  - now rewrite shr_iter_exact.
Qed.

Lemma binary_round_aux_exact s k e n :
  0 < k -> 0 <= n -> fexp (Zdigits2 k + (e + n)) = e + n ->
  binary_round_aux prec emax s (k * 2 ^ n) e loc_Exact
  = if e + n <=? 971 then S754_finite s (Z.to_pos k) (e + n)
    else S754_infinity s.
Proof.
  intros Hk Hn Hf. unfold binary_round_aux, shr_fexp.
  rewrite Zdigits2_shiftl by lia.
  replace (Zdigits2 k + n + e) with (Zdigits2 k + (e + n)) by lia.
  rewrite Hf. replace (e + n - e) with n by lia.
  cbn [shr_record_of_loc]. rewrite shr_exact by lia.
  cbn [loc_of_shr_record shr_m round_nearest_even].
  rewrite Hf, Z.sub_diag. cbn [shr shr_record_of_loc shr_m].
  destruct k as [|q|q]; try lia. reflexivity.
Qed.

(** Rounding a value that fits the format gives that value. *)
Lemma binary_round_canon M ez N :
  -1074 <= ez -> 0 < N < 2 ^ 53 -> scaled M ez = N * 2 ^ 1074 ->
  binary_round prec emax false M ez = canon N.
Proof.
  intros Hez HN HV. unfold binary_round.
  change (Zpos (digits2_pos M)) with (Zdigits2 (Zpos M)).
  assert (Hd : Zdigits2 (Zpos M) + ez = Zdigits2 N).
  { pose proof (Zdigits2_shiftl (Zpos M) (ez + 1074) ltac:(lia) ltac:(lia)) as H1.
    pose proof (Zdigits2_shiftl N 1074 ltac:(lia) ltac:(lia)) as H2.
    unfold scaled in HV. rewrite HV in H1. lia. }
  rewrite Hd.
  assert (HdN : 1 <= Zdigits2 N <= 53).
  { split.
    - pose proof (Zdigits2_ge N 0 ltac:(lia) ltac:(simpl; lia)). lia.
    - apply Zdigits2_le; lia. }
  set (d := Zdigits2 N) in *.
  assert (He1 : fexp d = d - 53) by (rewrite fexp_eq; lia).
  rewrite He1.
  destruct (shl_align_spec M ez (d - 53)) as (mz & -> & Hmz).
  set (e0 := Z.min ez (d - 53)) in *.
  assert (He0 : -1074 <= e0 /\ e0 <= d - 53 /\ e0 <= ez) by (unfold e0; lia).
  clearbody e0.
  set (k := N * 2 ^ (53 - d)).
  assert (Hk : 0 < k).
  { unfold k. pose proof (pow2_pos (53 - d) ltac:(lia)). nia. }
  assert (Hmk : Zpos mz = k * 2 ^ (d - 53 - e0)).
  { assert (Hc : Zpos mz * 2 ^ (e0 + 1074)
                 = k * 2 ^ (d - 53 - e0) * 2 ^ (e0 + 1074)).
    { unfold k. rewrite Hmz.
      rewrite <- !Z.mul_assoc, <- !Z.pow_add_r by lia.
      replace (ez - e0 + (e0 + 1074)) with (ez + 1074) by lia.
      replace (53 - d + (d - 53 - e0 + (e0 + 1074))) with 1074 by lia.
      exact HV. }
    pose proof (pow2_pos (e0 + 1074) ltac:(lia)) as Hp.
    apply Z.mul_cancel_r in Hc; [exact Hc|lia]. }
  rewrite Hmk.
  assert (Hdk : Zdigits2 k = 53).
  { unfold k. rewrite Zdigits2_shiftl by lia. unfold d. lia. }
  rewrite binary_round_aux_exact; try lia.
  - replace (e0 + (d - 53 - e0)) with (d - 53) by lia.
    destruct (Z.leb_spec (d - 53) 971); [reflexivity|lia].
  - rewrite Hdk. rewrite fexp_eq. lia.
Qed.

Lemma of_Z_canon N : 0 < N < 2 ^ 53 -> of_Z N = canon N.
Proof.
  intros HN. unfold of_Z. destruct N as [|p|p]; try lia.
  cbn [binary_normalize]. apply binary_round_canon; [lia|exact HN|].
  unfold scaled. reflexivity.
Qed.

Lemma canon_bounded N :
  0 < N < 2 ^ 53 ->
  bounded prec emax (Z.to_pos (N * 2 ^ (53 - Zdigits2 N))) (Zdigits2 N - 53)
  = true
  /\ scaled (Z.to_pos (N * 2 ^ (53 - Zdigits2 N))) (Zdigits2 N - 53)
     = N * 2 ^ 1074.
Proof.
  intros HN.
  assert (HdN : 1 <= Zdigits2 N <= 53).
  { split.
    - pose proof (Zdigits2_ge N 0 ltac:(lia) ltac:(simpl; lia)). lia.
    - apply Zdigits2_le; lia. }
  pose proof (pow2_pos (53 - Zdigits2 N) ltac:(lia)) as Hp.
  assert (Hk : 0 < N * 2 ^ (53 - Zdigits2 N)) by nia.
  split.
  - apply bounded_intro; [|lia]. rewrite Z2Pos.id by exact Hk.
    rewrite Zdigits2_shiftl by lia. rewrite fexp_eq. lia.
  - unfold scaled. rewrite Z2Pos.id by exact Hk.
    rewrite <- Z.mul_assoc, <- Z.pow_add_r by lia. f_equal. f_equal. lia.
Qed.

(** Whole numbers add without error while the sum is below 2^53. *)
Lemma add_of_Z a b :
  0 <= a -> 0 < b -> a + b < 2 ^ 53 -> add (of_Z a) (of_Z b) = of_Z (a + b).
Proof.
  intros Ha Hb Hs.
  destruct (Z.eq_dec a 0) as [->|Ha0].
  { rewrite Z.add_0_l, (of_Z_canon b) by lia. reflexivity. }
  rewrite (of_Z_canon a), (of_Z_canon b), (of_Z_canon (a + b)) by lia.
  destruct (canon_bounded a ltac:(lia)) as [Ba Sa].
  destruct (canon_bounded b ltac:(lia)) as [Bb Sb].
  unfold canon at 1 2.
  set (ma := Z.to_pos (a * 2 ^ (53 - Zdigits2 a))) in *.
  set (mb := Z.to_pos (b * 2 ^ (53 - Zdigits2 b))) in *.
  set (ea := Zdigits2 a - 53) in *. set (eb := Zdigits2 b - 53) in *.
  clearbody ma mb ea eb.
  unfold add, SFadd. cbn [cond_Zopp].
  pose proof (bounded_facts _ _ Ba) as (Hea & _).
  pose proof (bounded_facts _ _ Bb) as (Heb & _).
  destruct (shl_align_scaled ma ea (Z.min ea eb)) as (xa & -> & Hxa); try lia.
  destruct (shl_align_scaled mb eb (Z.min ea eb)) as (xb & -> & Hxb); try lia.
  cbn [fst]. change (Zpos xa + Zpos xb) with (Zpos (xa + xb)).
  cbn [binary_normalize].
  apply binary_round_canon; [lia|lia|].
  rewrite Z.mul_add_distr_r, <- Sa, <- Sb, <- Hxa, <- Hxb.
  unfold scaled. rewrite Pos2Z.inj_add. lia.
Qed.

Lemma exponent_lt_scaled_lt m1 e1 m2 e2 :
  bounded prec emax m1 e1 = true -> bounded prec emax m2 e2 = true ->
  e1 < e2 -> scaled m1 e1 < scaled m2 e2.
Proof.
  intros B1 B2 Hlt. unfold scaled.
  apply bounded_facts in B1 as (He1 & Hb1 & _).
  apply bounded_facts in B2 as (He2 & _ & Hn2).
  specialize (Hn2 ltac:(lia)).
  pose proof (pow2_pos (e1 + 1074) ltac:(lia)) as Hp.
  assert (Hpow : 2 * 2 ^ (e1 + 1074) <= 2 ^ (e2 + 1074)).
  { rewrite <- Z.pow_succ_r by lia. apply Z.pow_le_mono_r; lia. }
  change (2 ^ 52) with 4503599627370496 in Hn2.
  change (2 ^ 53) with 9007199254740992 in Hb1.
  revert Hpow Hp Hn2 Hb1.
  generalize (2 ^ (e1 + 1074)) (2 ^ (e2 + 1074)). intros. nia.
Qed.

(** On positive numbers in normal form, the comparison of the format is
    the comparison of the values. *)
Lemma SFcompare_scaled m1 e1 m2 e2 :
  bounded prec emax m1 e1 = true -> bounded prec emax m2 e2 = true ->
  SFcompare (S754_finite false m1 e1) (S754_finite false m2 e2)
  = Some (scaled m1 e1 ?= scaled m2 e2).
Proof.
  intros B1 B2. cbn [SFcompare]. f_equal.
  destruct (Z.compare_spec e1 e2) as [->|Hlt|Hgt].
  - change (Pos.compare_cont Eq m1 m2) with (Zpos m1 ?= Zpos m2).
    unfold scaled. apply bounded_facts in B2 as (He2 & _).
    pose proof (pow2_pos (e2 + 1074) ltac:(lia)) as Hp.
    destruct (Z.compare_spec (Zpos m1) (Zpos m2)) as [Hc|Hc|Hc]; symmetry;
      [apply Z.compare_eq_iff|apply Z.compare_lt_iff|apply Z.compare_gt_iff];
      nia.
  - symmetry. apply Z.compare_lt_iff.
    now apply exponent_lt_scaled_lt.
  - symmetry. apply Z.compare_gt_iff.
    now apply exponent_lt_scaled_lt.
Qed.

Lemma lt_of_Z a b : 0 <= a -> a < b -> b < 2 ^ 53 -> lt (of_Z a) (of_Z b) = true.
Proof.
  intros Ha Hab Hb.
  destruct (canon_bounded b ltac:(lia)) as [Bb Sb].
  rewrite (of_Z_canon b) by lia.
  destruct (Z.eq_dec a 0) as [->|Ha0]; [reflexivity|].
  destruct (canon_bounded a ltac:(lia)) as [Ba Sa].
  rewrite (of_Z_canon a) by lia.
  unfold lt, SFltb, canon. rewrite (SFcompare_scaled _ _ _ _ Ba Bb), Sa, Sb.
  assert (Hc : a * 2 ^ 1074 < b * 2 ^ 1074).
  { apply Z.mul_lt_mono_pos_r; [apply pow2_pos; lia|exact Hab]. }
  apply Z.compare_lt_iff in Hc. now rewrite Hc.
Qed.

(** The total of whole amounts is their exact sum while that stays
    below 2^53. *)
Lemma fold_sum_exact es : forall zs acc,
  map amount es = map of_Z zs -> Forall (fun z => 0 < z) zs ->
  0 <= acc -> acc + fold_right Z.add 0 zs < 2 ^ 53 ->
  fold_left (fun sum expense => add sum (amount expense)) es (of_Z acc)
  = of_Z (acc + fold_right Z.add 0 zs).
Proof.
  induction es as [|e es IH]; intros [|z zs] acc Hmap Hpos Hacc Hsum;
    try discriminate; cbn [fold_left fold_right map] in *.
  - now rewrite Z.add_0_r.
  - injection Hmap as He Hes.
    apply Forall_cons_iff in Hpos as [Hz Hzs].
    assert (0 <= fold_right Z.add 0 zs).
    { clear - Hzs. induction Hzs; cbn; lia. }
    rewrite He, add_of_Z by lia.
    rewrite IH with (zs := zs) by (trivial; lia).
    f_equal. lia.
Qed.

End Exact.

(** * Comparisons *)

Lemma compare_cont_swap m1 m2 :
  Pos.compare_cont Eq m2 m1 = CompOpp (Pos.compare_cont Eq m1 m2).
Proof. now rewrite Pos.compare_cont_antisym. Qed.

Lemma SFcompare_swap x y c :
  SFcompare x y = Some c -> SFcompare y x = Some (CompOpp c).
Proof.
  destruct x as [sx|sx| |sx m1 e1], y as [sy|sy| |sy m2 e2];
    try (destruct sx); try (destruct sy); cbn [SFcompare];
    intros H; try discriminate; try (injection H as <-; reflexivity);
    injection H as <-; f_equal;
    rewrite (Z.compare_antisym e1 e2), (compare_cont_swap m1 m2);
    destruct (e1 ?= e2); cbn [CompOpp]; trivial;
    now rewrite CompOpp_involutive.
Qed.


Lemma nonneg_not_NaN x : nonneg x = true -> isNaN x = false.
Proof. destruct x as [[]|[]| |[] m e]; try discriminate; reflexivity. Qed.


Lemma above_zero_nonneg x : above_zero x = true -> nonneg x = true.
Proof. destruct x as [[]|[]| |[] m e]; try discriminate; reflexivity. Qed.

Lemma above_zero_lt x : above_zero x = true -> lt zero x = true.
Proof. destruct x as [[]|[]| |[] m e]; try discriminate; reflexivity. Qed.

(** What passes the second check of [addExpense] is above zero. *)
Lemma accepted_above_zero x :
  isNaN x || le x zero = false -> above_zero x = true.
Proof. destruct x as [[]|[]| |[] m e]; try discriminate; reflexivity. Qed.

Lemma above_zero_accepted x :
  above_zero x = true -> isNaN x || le x zero = false.
Proof. destruct x as [[]|[]| |[] m e]; try discriminate; reflexivity. Qed.


(** * [parseFloat] *)

Lemma parseFloat_empty : parseFloat "" = NaN.
Proof. reflexivity. Qed.

Lemma of_ratio_valid neg n d : valid_binary prec emax (of_ratio neg n d) = true.
Proof.
  destruct n as [|p]; [reflexivity|]. apply SFdiv_finite_valid.
Qed.

Lemma of_decimal_valid neg m e :
  valid_binary prec emax (of_decimal neg m e) = true.
Proof. destruct e; apply of_ratio_valid. Qed.

(** Every result of [parseFloat] is a binary64 number in normal form. *)
Lemma parseFloat_valid s : valid_binary prec emax (parseFloat s) = true.
Proof.
  unfold parseFloat.
  repeat match goal with
         | |- valid_binary _ _ (of_decimal _ _ _) = true =>
             apply of_decimal_valid
         | |- context [match ?x with _ => _ end] => destruct x
         end; reflexivity.
Qed.

(** A few values of the built-ins, as the engines compute them. *)

Example parseFloat_whole : parseFloat "200" = of_Z 200.
Proof. reflexivity. Qed.

Example parseFloat_tenth :
  parseFloat "0.1" = S754_finite false 7205759403792794 (-56).
Proof. reflexivity. Qed.

Example parseFloat_prefix : parseFloat " 12abc" = of_Z 12.
Proof. reflexivity. Qed.

Example parseFloat_not_a_number : parseFloat "abc" = NaN.
Proof. reflexivity. Qed.

Example parseFloat_overflow : parseFloat "1e400" = POSITIVE_INFINITY.
Proof. reflexivity. Qed.

Example parseFloat_negative_zero : parseFloat "-0" = S754_zero true.
Proof. reflexivity. Qed.

Example add_tenths :
  add (parseFloat "0.1") (parseFloat "0.2") = parseFloat "0.30000000000000004".
Proof. reflexivity. Qed.

Example Math_round_half_up :
  Math_round (parseFloat "2.5") = of_Z 3
  /\ Math_round (parseFloat "-2.5") = of_Z (-2)
  /\ Math_round (parseFloat "-0.5") = S754_zero true.
Proof. repeat split; reflexivity. Qed.

Example toString_clock : toString 1700000000000 = "1700000000000"%string.
Proof. reflexivity. Qed.

(** [parseFloat] gives [NaN] for the texts with no number at their
    head, and for no others. *)

Lemma of_decimal_not_NaN neg m e : isNaN (of_decimal neg m e) = false.
Proof.
  assert (H : forall n d, isNaN (of_ratio neg n d) = false).
  { intros [|p] d; [reflexivity|].
    unfold of_ratio, SFdiv, SFdiv_core_binary.
    match goal with
    | |- context [Z.div_eucl ?a ?b] =>
        assert (Hm : 0 <= a);
        [|pose proof (Z_div_mod a b ltac:(lia)) as Hdm;
          destruct (Z.div_eucl a b) as [q r]; destruct Hdm as [Hq Hr]]
    end.
    { match goal with |- 0 <= match ?s with _ => _ end => destruct s end;
        try lia. apply Z.shiftl_nonneg. lia. }
    assert (Hq0 : 0 <= q) by nia.
    match goal with
    | |- context [binary_round_aux _ _ ?s ?m ?e ?l] =>
        destruct (binary_round_aux_sign s m e l Hq0)
          as [->|[->|(? & ? & ->)]]
    end; reflexivity. }
  destruct e; apply H.
Qed.

Lemma digits_shape s : forall acc acc' cnt,
  snd (fst (digits acc cnt s)) = snd (fst (digits acc' cnt s))
  /\ snd (digits acc cnt s) = snd (digits acc' cnt s).
Proof.
  induction s as [|a s IH]; intros acc acc' cnt; cbn [digits].
  - now split.
  - destruct (digit_of a); [apply IH|now split].
Qed.

Lemma parseFloat_NaN_unread s :
  isNaN (parseFloat s) = true <-> unread s = None.
Proof.
  unfold parseFloat, unread.
  assert (H : forall neg u,
    isNaN (if String.prefix "Infinity" u then S754_infinity neg
           else
             let '(ip, ni, r1) := digits 0 0 u in
             let '(m, nf, r2) :=
               match r1 with
               | String a r =>
                   if byte_is a 46 then
                     let '(m, n, r') := digits ip 0 r in (m, n, r')
                   else (ip, O, r1)
               | EmptyString => (ip, O, r1)
               end in
             match (ni + nf)%nat with
             | O => NaN
             | S _ => of_decimal neg m (exponentPart r2 - Z.of_nat nf)
             end) = true
    <-> (if String.prefix "Infinity" u
         then Some (String.substring 8 (String.length u - 8) u)
         else
           let '(_, ni, r1) := digits 0 0 u in
           let '(nf, r2) :=
             match r1 with
             | String a r =>
                 if byte_is a 46
                 then let '(_, n, r') := digits 0 0 r in (n, r')
                 else (O, r1)
             | EmptyString => (O, r1)
             end in
           match (ni + nf)%nat with
           | O => None
           | S _ => Some (exponentRest r2)
           end) = None).
  { intros neg u. destruct (String.prefix "Infinity" u);
      [split; discriminate|].
    destruct (digits 0 0 u) as [[ip ni] r1].
    assert (Hend : forall m nf r2,
      isNaN match (ni + nf)%nat with
            | O => NaN
            | S _ => of_decimal neg m (exponentPart r2 - Z.of_nat nf)
            end = true
      <-> match (ni + nf)%nat with
          | O => None
          | S _ => Some (exponentRest r2)
          end = None).
    { intros m nf r2. destruct (ni + nf)%nat; [split; reflexivity|].
      rewrite of_decimal_not_NaN. split; discriminate. }
    destruct r1 as [|a r]; [apply Hend|].
    destruct (byte_is a 46); [|apply Hend].
    pose proof (digits_shape r ip 0%N 0%nat) as [Hc Hr].
    destruct (digits ip 0 r) as [[m nf] r2], (digits 0 0 r) as [[m' nf'] r2'].
    cbn [fst snd] in Hc, Hr. subst nf' r2'. apply Hend. }
  destruct (trimStart s) as [|a r]; [apply H|].
  destruct (byte_is a 43), (byte_is a 45); cbn [orb]; apply H.
Qed.

(** * The handler [addExpense] *)

Lemma falsy_empty s : falsy s = true <-> s = ""%string.
Proof. destruct s; simpl; split; congruence. Qed.

Lemma falsy_nonempty s : falsy s = false <-> s <> ""%string.
Proof. destruct s; simpl; split; congruence. Qed.

Lemma addExpense_missing clk st :
  falsy (expenseName st) || falsy (expenseAmount st)
  || falsy (expenseCategory st) = true ->
  addExpense clk st = (st, MissingInformation).
Proof. intros H. unfold addExpense. now rewrite H. Qed.

Lemma addExpense_invalid clk st :
  falsy (expenseName st) || falsy (expenseAmount st)
  || falsy (expenseCategory st) = false ->
  isNaN (parseFloat (expenseAmount st))
  || le (parseFloat (expenseAmount st)) zero = true ->
  addExpense clk st = (st, InvalidAmount).
Proof. intros H1 H2. unfold addExpense. now rewrite H1, H2. Qed.

Lemma addExpense_added clk st :
  falsy (expenseName st) || falsy (expenseAmount st)
  || falsy (expenseCategory st) = false ->
  isNaN (parseFloat (expenseAmount st))
  || le (parseFloat (expenseAmount st)) zero = false ->
  addExpense clk st =
  ({| expenses :=
        expenses st
        ++ [{| id := toString (Date_now clk);
               name := expenseName st;
               amount := parseFloat (expenseAmount st);
               category := expenseCategory st;
               date := new_Date clk |}];
      expenseName := ""; expenseAmount := ""; expenseCategory := "" |},
   ExpenseAdded (expenseName st) (parseFloat (expenseAmount st))).
Proof. intros H1 H2. unfold addExpense. now rewrite H1, H2. Qed.

Lemma positive_finite_above_zero x :
  positive_finite x = true -> above_zero x = true.
Proof. destruct x as [[]|[]| |[] m e]; try discriminate; reflexivity. Qed.

Lemma nonempty_fields st :
  expenseName st <> ""%string -> expenseAmount st <> ""%string ->
  expenseCategory st <> ""%string ->
  falsy (expenseName st) || falsy (expenseAmount st)
  || falsy (expenseCategory st) = false.
Proof.
  intros Hn Ha Hc. apply falsy_nonempty in Hn, Ha, Hc. now rewrite Hn, Ha, Hc.
Qed.

Lemma parse_above_zero_nonempty s :
  above_zero (parseFloat s) = true -> s <> ""%string.
Proof. intros H ->. discriminate. Qed.

(** C1.  For a non-empty name, an amount text that parses to a positive
    finite number and a non-empty category, [addExpense] succeeds: the
    entries are the former entries followed by exactly one new entry,
    whose name, amount and category are the inputs. *)
Theorem addExpense_valid_appends clk st :
  expenseName st <> ""%string ->
  positive_finite (parseFloat (expenseAmount st)) = true ->
  expenseCategory st <> ""%string ->
  exists e,
    snd (addExpense clk st)
    = ExpenseAdded (expenseName st) (parseFloat (expenseAmount st))
    /\ expenses (fst (addExpense clk st)) = expenses st ++ [e]
    /\ name e = expenseName st
    /\ amount e = parseFloat (expenseAmount st)
    /\ category e = expenseCategory st.
Proof.
  intros Hn Hp Hc. apply positive_finite_above_zero in Hp.
  pose proof (parse_above_zero_nonempty _ Hp) as Ha.
  rewrite (addExpense_added clk st (nonempty_fields st Hn Ha Hc)
             (above_zero_accepted _ Hp)).
  eexists. cbn [fst snd expenses]. repeat split.
Qed.

(** C2, as amended.  With an empty name, an empty category, an empty
    amount, an amount text with no number at its head, for which
    [parseFloat] gives [NaN], or an amount that parses to zero or less,
    [addExpense] fails with one of the two validation toasts and leaves
    the whole state, entries included, as it was. *)
Theorem addExpense_invalid_unchanged clk st :
  expenseName st = ""%string \/ expenseCategory st = ""%string
  \/ expenseAmount st = ""%string
  \/ unread (expenseAmount st) = None
  \/ isNaN (parseFloat (expenseAmount st)) = true
  \/ le (parseFloat (expenseAmount st)) zero = true ->
  fst (addExpense clk st) = st
  /\ expenses (fst (addExpense clk st)) = expenses st
  /\ (snd (addExpense clk st) = MissingInformation
      \/ snd (addExpense clk st) = InvalidAmount).
Proof.
  intros H.
  destruct (falsy (expenseName st) || falsy (expenseAmount st)
            || falsy (expenseCategory st)) eqn:Hm.
  - rewrite (addExpense_missing clk st Hm). cbn. auto.
  - assert (Hbad : isNaN (parseFloat (expenseAmount st))
                   || le (parseFloat (expenseAmount st)) zero = true).
    { apply orb_false_iff in Hm as [Hm Hc].
      apply orb_false_iff in Hm as [Hn Ha].
      apply falsy_nonempty in Hn, Ha, Hc.
      destruct H as [H|[H|[H|[H|[H|H]]]]]; try contradiction.
      - apply (proj2 (parseFloat_NaN_unread _)) in H. now rewrite H.
      - now rewrite H.
      - rewrite H. apply orb_true_r. }
    rewrite (addExpense_invalid clk st Hm Hbad). cbn. auto.
Qed.

(** C5.  The check for a missing field comes first: when a field is
    empty the toast is the missing-information one, whatever the amount
    text parses to. *)
Theorem addExpense_missing_first clk st :
  expenseName st = ""%string \/ expenseAmount st = ""%string
  \/ expenseCategory st = ""%string ->
  snd (addExpense clk st) = MissingInformation
  /\ snd (addExpense clk st) <> InvalidAmount.
Proof.
  intros H.
  assert (Hm : falsy (expenseName st) || falsy (expenseAmount st)
               || falsy (expenseCategory st) = true).
  { destruct H as [H|[H|H]]; apply falsy_empty in H; rewrite H;
      now rewrite ?orb_true_r. }
  rewrite (addExpense_missing clk st Hm). cbn. split; [reflexivity|discriminate].
Qed.

(** C8.  The category is not compared with [categories]: any non-empty
    category, in the list or not, is accepted with a valid name and
    amount and is stored as it is. *)
Theorem addExpense_any_category clk st :
  expenseName st <> ""%string ->
  positive_finite (parseFloat (expenseAmount st)) = true ->
  expenseCategory st <> ""%string ->
  exists e,
    snd (addExpense clk st)
    = ExpenseAdded (expenseName st) (parseFloat (expenseAmount st))
    /\ expenses (fst (addExpense clk st)) = expenses st ++ [e]
    /\ category e = expenseCategory st.
Proof.
  intros Hn Hp Hc. apply positive_finite_above_zero in Hp.
  pose proof (parse_above_zero_nonempty _ Hp) as Ha.
  rewrite (addExpense_added clk st (nonempty_fields st Hn Ha Hc)
             (above_zero_accepted _ Hp)).
  eexists. cbn [fst snd expenses]. repeat split.
Qed.

(** * The invariant of the ledger *)

Lemma addExpense_preserves_ok clk st :
  ledger_ok st -> ledger_ok (fst (addExpense clk st)).
Proof.
  intros Hok. unfold addExpense.
  destruct (falsy (expenseName st) || falsy (expenseAmount st)
            || falsy (expenseCategory st)) eqn:Hm; [exact Hok|].
  destruct (isNaN (parseFloat (expenseAmount st))
            || le (parseFloat (expenseAmount st)) zero) eqn:Hv; [exact Hok|].
  unfold ledger_ok. cbn [fst expenses].
  apply Forall_app. split; [exact Hok|].
  constructor; [|constructor].
  apply orb_false_iff in Hm as [Hm Hc].
  apply orb_false_iff in Hm as [Hn Ha].
  unfold entry_ok. cbn [name category amount].
  repeat split.
  - now apply falsy_nonempty.
  - now apply falsy_nonempty.
  - now apply accepted_above_zero.
  - apply parseFloat_valid.
Qed.

Lemma reachable_ok st : reachable st -> ledger_ok st.
Proof.
  induction 1; trivial.
  - constructor.
  - now apply addExpense_preserves_ok.
Qed.

Lemma fold_sum_ok es :
  Forall entry_ok es ->
  let t := fold_left (fun sum expense => add sum (amount expense)) es zero in
  nonneg t = true /\ valid_binary prec emax t = true
  /\ (es <> [] -> above_zero t = true).
Proof.
  induction es as [|e es IH] using rev_ind; intros Hok.
  - cbn. repeat split. congruence.
  - apply Forall_app in Hok as [Hes He].
    apply Forall_inv in He. destruct He as (_ & _ & Hp & Hv).
    destruct (IH Hes) as (Hn & Hvt & _).
    cbv zeta. rewrite fold_left_app. cbn [fold_left].
    destruct (add_ge _ _ Hn Hvt Hp Hv) as (Ha & Hva & _).
    repeat split; trivial. now apply above_zero_nonneg.
Qed.

Lemma totalSpent_ok st :
  reachable st ->
  nonneg (totalSpent st) = true
  /\ valid_binary prec emax (totalSpent st) = true
  /\ (expenses st <> [] -> above_zero (totalSpent st) = true).
Proof. intros H. apply (fold_sum_ok _ (reachable_ok _ H)). Qed.

Lemma le_refl x : isNaN x = false -> le x x = true.
Proof.
  destruct x as [[]|[]| |[] m e]; try discriminate; intros _;
    try reflexivity; unfold le, SFleb; cbn [SFcompare];
    rewrite Z.compare_refl;
    change (Pos.compare_cont Eq m m) with (Pos.compare m m);
    now rewrite Pos.compare_refl.
Qed.

Lemma monthlyBudget_eq :
  monthlyBudget = S754_finite false 5497558138880000 (-40).
Proof. reflexivity. Qed.

Lemma hundred_eq : of_Z 100 = S754_finite false 7036874417766400 (-46).
Proof. reflexivity. Qed.

(** * Totals and the budget panel *)

(** C3, as amended.  [totalSpent] is the sum of the amounts of the
    entries taken in order from zero, each addition rounded to the
    nearest number: it is zero for no entries, each appended entry
    adds its amount to the total so far, and it depends on the entries
    alone, so that computing it again gives the same value.  For whole
    amounts it is their exact sum while that stays below 2^53. *)
Theorem totalSpent_sum :
  (forall st, expenses st = [] -> totalSpent st = zero)
  /\ (forall st st' e,
        expenses st' = expenses st ++ [e] ->
        totalSpent st' = add (totalSpent st) (amount e))
  /\ (forall st st', expenses st' = expenses st ->
                     totalSpent st' = totalSpent st)
  /\ (forall st zs,
        map amount (expenses st) = map of_Z zs ->
        Forall (fun z => 0 < z) zs ->
        fold_right Z.add 0 zs < 2 ^ 53 ->
        totalSpent st = of_Z (fold_right Z.add 0 zs)).
Proof.
  unfold totalSpent. split; [|split; [|split]].
  - intros st ->. reflexivity.
  - intros st st' e ->. now rewrite fold_left_app.
  - intros st st' ->. reflexivity.
  - intros st zs Hmap Hpos Hsum. change zero with (of_Z 0).
    now rewrite (fold_sum_exact _ zs 0 Hmap Hpos).
Qed.

(** C4.  In every state of the component, [isWithinBudget] holds
    exactly when the total is at most the budget, a total equal to the
    budget counting as within it; when it does not hold, the amount
    shown is the total less the budget and is above zero. *)
Theorem budget_status st :
  reachable st ->
  (isWithinBudget st = true <-> le (totalSpent st) monthlyBudget = true)
  /\ (totalSpent st = monthlyBudget -> isWithinBudget st = true)
  /\ (isWithinBudget st = false ->
      overBudgetAmount st = sub (totalSpent st) monthlyBudget
      /\ lt zero (overBudgetAmount st) = true).
Proof.
  intros Hr. destruct (totalSpent_ok st Hr) as (Hn & Hv & _).
  unfold isWithinBudget, overBudgetAmount.
  split; [reflexivity|]. split.
  - intros ->. reflexivity.
  - intros Hover. split; [reflexivity|].
    apply above_zero_lt. rewrite monthlyBudget_eq in *.
    destruct (totalSpent st) as [[]|[]| |[] m e]; try discriminate;
      try reflexivity.
    apply sub_above_zero; trivial.
Qed.

(** C10, as amended.  In every state of the component each entry has
    an amount above zero, a non-empty name and a non-empty category;
    a call of [addExpense] never lowers the total; the total is above
    zero as soon as there is an entry; and a successful call raises the
    total when the amounts are whole and their sum stays below 2^53. *)
Theorem ledger_invariant :
  (forall st, reachable st ->
     Forall (fun e => lt zero (amount e) = true
                      /\ name e <> ""%string /\ category e <> ""%string)
       (expenses st))
  /\ (forall clk st, reachable st ->
        le (totalSpent st) (totalSpent (fst (addExpense clk st))) = true)
  /\ (forall st, reachable st ->
        (expenses st = [] -> totalSpent st = zero)
        /\ (expenses st <> [] -> lt zero (totalSpent st) = true))
  /\ (forall clk st zs z,
        map amount (expenses st) = map of_Z zs ->
        Forall (fun z => 0 < z) zs ->
        expenseName st <> ""%string -> expenseCategory st <> ""%string ->
        parseFloat (expenseAmount st) = of_Z z -> 0 < z ->
        fold_right Z.add 0 zs + z < 2 ^ 53 ->
        lt (totalSpent st) (totalSpent (fst (addExpense clk st))) = true).
Proof.
  split; [|split; [|split]].
  - intros st Hr. pose proof (reachable_ok st Hr) as Hok.
    unfold ledger_ok in Hok. eapply Forall_impl; [|exact Hok].
    intros e (Hn & Hc & Hp & _). auto using above_zero_lt.
  - intros clk st Hr. destruct (totalSpent_ok st Hr) as (Hn & Hv & _).
    pose proof (addExpense_preserves_ok clk st (reachable_ok st Hr)) as Hok.
    unfold addExpense in *.
    destruct (falsy (expenseName st) || falsy (expenseAmount st)
              || falsy (expenseCategory st));
      [apply le_refl, nonneg_not_NaN, Hn|].
    destruct (isNaN (parseFloat (expenseAmount st))
              || le (parseFloat (expenseAmount st)) zero);
      [apply le_refl, nonneg_not_NaN, Hn|].
    unfold ledger_ok in Hok. cbn [fst expenses] in *.
    apply Forall_app in Hok as [_ He]. apply Forall_inv in He.
    destruct He as (_ & _ & Hp & Hva). cbn [amount] in Hp, Hva.
    unfold totalSpent at 2. cbn [expenses].
    rewrite fold_left_app. cbn [fold_left amount].
    apply (add_ge _ _ Hn Hv Hp Hva).
  - intros st Hr. split; intros H.
    + unfold totalSpent. now rewrite H.
    + apply above_zero_lt. now apply totalSpent_ok.
  - intros clk st zs z Hmap Hpos Hn Hc Hz Hz0 Hsum.
    assert (Hs0 : 0 <= fold_right Z.add 0 zs).
    { clear - Hpos. induction Hpos; cbn; lia. }
    assert (Hp : above_zero (parseFloat (expenseAmount st)) = true)
      by (rewrite Hz, of_Z_canon by lia; reflexivity).
    rewrite (addExpense_added clk st
               (nonempty_fields st Hn (parse_above_zero_nonempty _ Hp) Hc)
               (above_zero_accepted _ Hp)).
    assert (Ht : totalSpent st = of_Z (fold_right Z.add 0 zs)).
    { unfold totalSpent. change zero with (of_Z 0).
      rewrite (fold_sum_exact _ zs 0 Hmap Hpos); [reflexivity|lia|lia]. }
    unfold totalSpent at 2. cbn [fst expenses].
    rewrite fold_left_app. cbn [fold_left amount].
    fold (totalSpent st). rewrite Ht, Hz, add_of_Z by lia.
    apply lt_of_Z; lia.
Qed.

(** * Validation of the amount *)

(** C6, as amended.  With the three fields non-empty, [addExpense]
    fails with the invalid-amount toast whenever the amount text parses
    to NaN or to zero or less, and succeeds whenever it parses to a
    positive finite number; the amount of an entry it adds is always
    above zero. *)
Theorem amount_validation clk st :
  expenseName st <> ""%string -> expenseAmount st <> ""%string ->
  expenseCategory st <> ""%string ->
  (isNaN (parseFloat (expenseAmount st)) = true
   \/ le (parseFloat (expenseAmount st)) zero = true ->
   addExpense clk st = (st, InvalidAmount))
  /\ (positive_finite (parseFloat (expenseAmount st)) = true ->
      exists e, snd (addExpense clk st)
                = ExpenseAdded (expenseName st) (parseFloat (expenseAmount st))
                /\ expenses (fst (addExpense clk st)) = expenses st ++ [e]
                /\ amount e = parseFloat (expenseAmount st))
  /\ (forall n a, snd (addExpense clk st) = ExpenseAdded n a ->
                  a = parseFloat (expenseAmount st) /\ lt zero a = true).
Proof.
  intros Hn Ha Hc. pose proof (nonempty_fields st Hn Ha Hc) as Hm.
  split; [|split].
  - intros Hbad. apply addExpense_invalid; trivial.
    destruct Hbad as [-> | ->]; [reflexivity|apply orb_true_r].
  - intros Hp. apply positive_finite_above_zero, above_zero_accepted in Hp.
    rewrite (addExpense_added clk st Hm Hp).
    eexists. cbn [fst snd expenses]. repeat split.
  - intros n a.
    destruct (isNaN (parseFloat (expenseAmount st))
              || le (parseFloat (expenseAmount st)) zero) eqn:Hv.
    + rewrite (addExpense_invalid clk st Hm Hv). discriminate.
    + rewrite (addExpense_added clk st Hm Hv). cbn [snd].
      intros [= _ <-]. split; [reflexivity|].
      now apply above_zero_lt, accepted_above_zero.
Qed.

(** * Identifiers *)

Lemma submit_expenses c st :
  expenses (fst (submit c st))
  = expenses st ++ (if accepted c then [entry_of c] else []).
Proof.
  unfold submit, addExpense, accepted, fill, entry_of.
  cbn [expenseName expenseAmount expenseCategory setExpenseName
       setExpenseAmount setExpenseCategory expenses].
  destruct (falsy (call_name c) || falsy (call_amount c)
            || falsy (call_category c)); cbn [negb andb fst expenses];
    [now rewrite app_nil_r|].
  destruct (isNaN (parseFloat (call_amount c))
            || le (parseFloat (call_amount c)) zero);
    cbn [negb fst expenses]; [now rewrite app_nil_r|reflexivity].
Qed.

Lemma run_expenses cs : forall st,
  expenses (run cs st) = expenses st ++ map entry_of (filter accepted cs).
Proof.
  induction cs as [|c cs IH]; intros st; cbn [run filter].
  - now rewrite app_nil_r.
  - rewrite IH, submit_expenses.
    destruct (accepted c); cbn [map]; now rewrite <- app_assoc.
Qed.

Lemma toString_inj a b : toString a = toString b -> a = b.
Proof.
  unfold toString. intros H. apply DecimalZ.to_int_inj.
  assert (Hs : Some (Z.to_int a) = Some (Z.to_int b))
    by (rewrite <- !NilEmpty.isi; now rewrite H).
  now injection Hs.
Qed.

Lemma NoDup_map_injective {A B : Type} (f : A -> B) (l : list A) :
  (forall a b, f a = f b -> a = b) -> NoDup l -> NoDup (map f l).
Proof.
  intros Hinj Hnd. induction Hnd as [|x l Hx Hnd IH]; cbn [map].
  - constructor.
  - constructor; [|exact IH].
    rewrite in_map_iff. intros (y & Hy & Hin).
    apply Hinj in Hy. subst y. contradiction.
Qed.

(** C7, as amended.  The identifier of a new entry is the clock
    reading of its call in decimal; the identifiers of a ledger are
    pairwise distinct whenever the accepted calls read pairwise
    distinct clock values. *)
Theorem ids_unique cs :
  NoDup (map (fun c => Date_now (clock c)) (filter accepted cs)) ->
  map id (expenses (run cs initial))
  = map (fun c => toString (Date_now (clock c))) (filter accepted cs)
  /\ NoDup (map id (expenses (run cs initial))).
Proof.
  intros Hnd. rewrite run_expenses. cbn [expenses initial app].
  rewrite map_map.
  assert (Heq : map (fun c => id (entry_of c)) (filter accepted cs)
                = map toString
                    (map (fun c => Date_now (clock c)) (filter accepted cs)))
    by now rewrite map_map.
  split; [reflexivity|]. rewrite Heq.
  apply NoDup_map_injective; [apply toString_inj|exact Hnd].
Qed.

(** * Witnesses and counterexamples *)

Lemma run_reachable cs : forall st, reachable st -> reachable (run cs st).
Proof.
  induction cs as [|c cs IH]; intros st Hr; cbn [run]; trivial.
  apply IH. unfold submit, fill. now repeat constructor.
Qed.

Lemma addExpense_valid_appends_witness :
  expenseName lunch_form <> ""%string
  /\ positive_finite (parseFloat (expenseAmount lunch_form)) = true
  /\ expenseCategory lunch_form <> ""%string
  /\ exists e,
       snd (addExpense (clock_at 1700000000000) lunch_form)
       = ExpenseAdded "Lunch" (of_Z 200)
       /\ expenses (fst (addExpense (clock_at 1700000000000) lunch_form))
          = [] ++ [e]
       /\ name e = "Lunch"%string /\ amount e = of_Z 200
       /\ category e = "Food"%string.
Proof.
  split; [discriminate|]. split; [reflexivity|]. split; [discriminate|].
  apply (addExpense_valid_appends (clock_at 1700000000000) lunch_form);
    [discriminate|reflexivity|discriminate].
Defined.

Lemma addExpense_invalid_unchanged_witness :
  let st := fill "X" "abc" "Food" initial in
  unread (expenseAmount st) = None
  /\ isNaN (parseFloat (expenseAmount st)) = true
  /\ fst (addExpense (clock_at 0) st) = st
  /\ expenses (fst (addExpense (clock_at 0) st)) = []
  /\ (snd (addExpense (clock_at 0) st) = MissingInformation
      \/ snd (addExpense (clock_at 0) st) = InvalidAmount).
Proof.
  split; [reflexivity|]. split; [reflexivity|].
  apply (addExpense_invalid_unchanged (clock_at 0)
           (fill "X" "abc" "Food" initial)).
  right; right; right; left. reflexivity.
Defined.

Lemma addExpense_missing_first_witness :
  let st := fill "" "abc" "Food" initial in
  expenseName st = ""%string
  /\ isNaN (parseFloat (expenseAmount st)) = true
  /\ snd (addExpense (clock_at 0) st) = MissingInformation
  /\ snd (addExpense (clock_at 0) st) <> InvalidAmount.
Proof.
  split; [reflexivity|]. split; [reflexivity|].
  apply (addExpense_missing_first (clock_at 0) (fill "" "abc" "Food" initial)).
  left. reflexivity.
Defined.

Lemma addExpense_any_category_witness :
  let st := fill "Chips" "12.50" "Gambling" initial in
  ~ In "Gambling"%string categories
  /\ expenseName st <> ""%string
  /\ positive_finite (parseFloat (expenseAmount st)) = true
  /\ expenseCategory st <> ""%string
  /\ exists e,
       snd (addExpense (clock_at 0) st)
       = ExpenseAdded "Chips" (parseFloat "12.50")
       /\ expenses (fst (addExpense (clock_at 0) st)) = [] ++ [e]
       /\ category e = "Gambling"%string.
Proof.
  split.
  { cbn. intros H. repeat (destruct H as [H|H]; [discriminate H|]). exact H. }
  split; [discriminate|]. split; [reflexivity|]. split; [discriminate|].
  apply (addExpense_any_category (clock_at 0)
           (fill "Chips" "12.50" "Gambling" initial));
    [discriminate|reflexivity|discriminate].
Defined.

Lemma totalSpent_sum_witness :
  totalSpent initial = zero
  /\ totalSpent over_budget
     = add (totalSpent (run [call_at 1700000000000 "Lunch" "200" "Food"]
                          initial))
         (of_Z 4900)
  /\ totalSpent (setExpenseName "Tea" over_budget) = totalSpent over_budget
  /\ totalSpent over_budget = of_Z (fold_right Z.add 0 [200; 4900]).
Proof.
  destruct totalSpent_sum as (H0 & Happ & Hsame & Hexact).
  split; [apply (H0 initial); reflexivity|].
  split; [|split; [apply (Hsame over_budget); reflexivity|]].
  2:{ apply (Hexact over_budget [200; 4900]);
        [reflexivity|repeat constructor; lia|reflexivity]. }
  apply (Happ (run [call_at 1700000000000 "Lunch" "200" "Food"] initial)
           over_budget (entry_of (call_at 1700000060000 "Phone" "4900"
                                    "Shopping"))).
  reflexivity.
Defined.

Lemma budget_status_witness :
  reachable over_budget
  /\ isWithinBudget over_budget = false
  /\ overBudgetAmount over_budget = of_Z 100
  /\ ((isWithinBudget over_budget = true
       <-> le (totalSpent over_budget) monthlyBudget = true)
      /\ (totalSpent over_budget = monthlyBudget ->
          isWithinBudget over_budget = true)
      /\ (isWithinBudget over_budget = false ->
          overBudgetAmount over_budget
          = sub (totalSpent over_budget) monthlyBudget
          /\ lt zero (overBudgetAmount over_budget) = true)).
Proof.
  assert (Hr : reachable over_budget)
    by (apply run_reachable; constructor).
  split; [exact Hr|]. split; [reflexivity|]. split; [reflexivity|].
  apply (budget_status over_budget Hr).
Defined.

(** C6, as stated, fails: the amount text 1e400 parses to [Infinity],
    which is not finite, and the entry is added all the same. *)
Lemma infinite_amount_accepted :
  isFinite (parseFloat "1e400") = false
  /\ addExpense (clock_at 1700000000000) (fill "Gold" "1e400" "Other" initial)
     = ({| expenses :=
             [{| id := "1700000000000"; name := "Gold";
                 amount := POSITIVE_INFINITY; category := "Other";
                 date := 1700000000000 |}];
           expenseName := ""; expenseAmount := ""; expenseCategory := "" |},
        ExpenseAdded "Gold" POSITIVE_INFINITY)
  /\ snd (addExpense (clock_at 1700000000000)
            (fill "Gold" "1e400" "Other" initial)) <> InvalidAmount.
Proof.
  split; [reflexivity|]. split; [reflexivity|].
  vm_compute. discriminate.
Qed.

Lemma amount_validation_witness :
  let st := fill "Lunch" "-3" "Food" initial in
  expenseName st <> ""%string /\ expenseAmount st <> ""%string
  /\ expenseCategory st <> ""%string
  /\ le (parseFloat (expenseAmount st)) zero = true
  /\ addExpense (clock_at 0) st = (st, InvalidAmount)
  /\ (forall n a,
        snd (addExpense (clock_at 0) lunch_form) = ExpenseAdded n a ->
        a = parseFloat (expenseAmount lunch_form) /\ lt zero a = true).
Proof.
  split; [discriminate|]. split; [discriminate|]. split; [discriminate|].
  split; [reflexivity|]. split.
  - apply (amount_validation (clock_at 0) (fill "Lunch" "-3" "Food" initial));
      [discriminate|discriminate|discriminate|right; reflexivity].
  - apply (amount_validation (clock_at 0) lunch_form);
      discriminate.
Defined.

(** C7, as stated, fails: two accepted calls that read the same
    millisecond give two entries with the same identifier. *)
Lemma same_clock_same_id :
  let cs := [call_at 1700000000000 "Lunch" "200" "Food";
             call_at 1700000000000 "Bus" "30" "Transportation"] in
  forallb accepted cs = true
  /\ map id (expenses (run cs initial))
     = ["1700000000000"; "1700000000000"]%string
  /\ ~ NoDup (map id (expenses (run cs initial))).
Proof.
  split; [reflexivity|]. split; [reflexivity|].
  intros H. vm_compute in H. inversion H as [|x l Hin _]; subst.
  apply Hin. left. reflexivity.
Qed.

Lemma ids_unique_witness :
  let cs := [call_at 1700000000000 "Lunch" "200" "Food";
             call_at 1700000000000 "" "1" "Food";
             call_at 1700000060000 "Phone" "4900" "Shopping"] in
  NoDup (map (fun c => Date_now (clock c)) (filter accepted cs))
  /\ map id (expenses (run cs initial))
     = map (fun c => toString (Date_now (clock c))) (filter accepted cs)
  /\ NoDup (map id (expenses (run cs initial))).
Proof.
  assert (Hnd : NoDup (map (fun c => Date_now (clock c))
                         (filter accepted
                            [call_at 1700000000000 "Lunch" "200" "Food";
                             call_at 1700000000000 "" "1" "Food";
                             call_at 1700000060000 "Phone" "4900"
                               "Shopping"]))).
  { cbn. constructor; [|constructor; [|constructor]]; cbn; intuition lia. }
  split; [exact Hnd|].
  apply (ids_unique [call_at 1700000000000 "Lunch" "200" "Food";
                     call_at 1700000000000 "" "1" "Food";
                     call_at 1700000060000 "Phone" "4900" "Shopping"] Hnd).
Defined.

(** C10, as stated, fails: after an entry of 1e16, an accepted entry of
    1 leaves the total where it was. *)
Lemma small_amount_keeps_total :
  let st1 := run [call_at 1 "Car" "1e16" "Other"] initial in
  let c := call_at 2 "Gum" "1" "Food" in
  snd (submit c st1) = ExpenseAdded "Gum" (of_Z 1)
  /\ List.length (expenses (fst (submit c st1)))
     = S (List.length (expenses st1))
  /\ totalSpent (fst (submit c st1)) = totalSpent st1
  /\ lt (totalSpent st1) (totalSpent (fst (submit c st1))) = false.
Proof. repeat split; reflexivity. Qed.

Lemma ledger_invariant_witness :
  reachable over_budget
  /\ Forall (fun e => lt zero (amount e) = true
                      /\ name e <> ""%string /\ category e <> ""%string)
       (expenses over_budget)
  /\ le (totalSpent over_budget)
       (totalSpent (fst (addExpense (clock_at 1700000120000)
                           (fill "Tea" "15" "Food" over_budget)))) = true
  /\ (expenses over_budget <> [] -> lt zero (totalSpent over_budget) = true)
  /\ lt (totalSpent over_budget)
       (totalSpent (fst (addExpense (clock_at 1700000120000)
                           (fill "Tea" "15" "Food" over_budget)))) = true.
Proof.
  assert (Hr : reachable over_budget)
    by (apply run_reachable; constructor).
  assert (Hf : reachable (fill "Tea" "15" "Food" over_budget))
    by (unfold fill; now repeat constructor).
  destruct ledger_invariant as (Hinv & Hmono & Hzero & Hstrict).
  split; [exact Hr|]. split; [apply (Hinv over_budget Hr)|].
  split; [apply (Hmono (clock_at 1700000120000) _ Hf)|].
  split; [apply (Hzero over_budget Hr)|].
  apply (Hstrict (clock_at 1700000120000)
           (fill "Tea" "15" "Food" over_budget) [200; 4900] 15);
    [reflexivity|repeat constructor; lia|discriminate|discriminate
    |reflexivity|lia|reflexivity].
Defined.

(** * Rounding from below, for any location *)

Section RoundingBelow.

Local Abbreviation fexp := (SpecFloat.fexp prec emax).

(** Rounding a value that is at least a number of the format gives at
    least that number, whatever the location of the dropped bits. *)
Lemma binary_round_aux_ge m e l mx ex :
  0 <= m -> -1074 <= e -> e <= fexp (Zdigits2 m + e) ->
  bounded prec emax mx ex = true ->
  scaled mx ex <= m * 2 ^ (e + 1074) ->
  valid_binary prec emax (binary_round_aux prec emax false m e l) = true
  /\ le (S754_finite false mx ex) (binary_round_aux prec emax false m e l)
     = true.
Proof.
  intros Hm He Hf Bx Hle.
  destruct (binary_round_aux_spec false m e l Hm Hf) as (m2 & [Hlo _] & Hr).
  split; [exact (rounds_to_valid _ _ _ _ Hr)|].
  pose proof (bounded_facts _ _ Bx) as (Hex & Hbx & Hnx).
  pose proof (scaled_pos mx ex Hex) as Hxpos.
  assert (Hmpos : 0 < m).
  { pose proof (pow2_pos (e + 1074) ltac:(lia)). nia. }
  set (e1 := fexp (Zdigits2 m + e)) in *.
  assert (He1 : e <= e1 /\ -1074 <= e1).
  { split; [exact Hf|]. unfold e1. rewrite fexp_eq. clear. lia. }
  assert (Hd : ex < e1 -> Zdigits2 m + e - 53 = e1).
  { unfold e1. rewrite fexp_eq. clear - Hex. lia. }
  clearbody e1.
  pose proof (pow2_pos (e1 + 1074) ltac:(clear - He1; lia)) as Hp.
  assert (Hq : m * 2 ^ (e + 1074) / 2 ^ (e1 + 1074) = m / 2 ^ (e1 - e)).
  { replace (e1 + 1074) with (e1 - e + (e + 1074)) by lia.
    rewrite (Z.pow_add_r 2 (e1 - e) (e + 1074)) by lia.
    apply Z.div_mul_cancel_r.
    - pose proof (pow2_pos (e1 - e) ltac:(lia)). lia.
    - pose proof (pow2_pos (e + 1074) ltac:(lia)). lia. }
  rewrite <- Hq in Hlo.
  assert (Hge : scaled mx ex <= m2 * 2 ^ (e1 + 1074)).
  { destruct (Z.le_gt_cases e1 ex) as [Hc|Hc].
    - assert (Hx : scaled mx ex = 2 ^ (e1 + 1074) * (Zpos mx * 2 ^ (ex - e1))).
      { unfold scaled.
        rewrite (Z.mul_comm (2 ^ (e1 + 1074))), <- Z.mul_assoc,
          <- Z.pow_add_r by lia.
        f_equal. f_equal. lia. }
      assert (Hk : Zpos mx * 2 ^ (ex - e1)
                   <= m * 2 ^ (e + 1074) / 2 ^ (e1 + 1074)).
      { apply Z.div_le_lower_bound; [exact Hp|]. rewrite <- Hx. exact Hle. }
      rewrite Hx. clear - Hk Hlo Hp. nia.
    - specialize (Hd ltac:(clear - Hc; lia)).
      pose proof (Zdigits2_bounds m Hmpos) as [Blo _].
      assert (Hd1 : 1 <= Zdigits2 m).
      { pose proof (Zdigits2_ge m 0 ltac:(lia) ltac:(simpl; lia)). lia. }
      assert (Hs : 2 ^ (e1 + 1074) * 2 ^ 52 <= m * 2 ^ (e + 1074)).
      { rewrite <- Z.pow_add_r by lia.
        replace (e1 + 1074 + 52) with (Zdigits2 m - 1 + (e + 1074)) by lia.
        rewrite Z.pow_add_r by lia.
        apply Z.mul_le_mono_nonneg_r; [|exact Blo].
        apply Z.lt_le_incl, pow2_pos. lia. }
      assert (Hk : 2 ^ 52 <= m * 2 ^ (e + 1074) / 2 ^ (e1 + 1074))
        by (apply Z.div_le_lower_bound; [exact Hp|exact Hs]).
      assert (Hpow : 2 * 2 ^ (ex + 1074) <= 2 ^ (e1 + 1074)).
      { rewrite <- Z.pow_succ_r by lia. apply Z.pow_le_mono_r; lia. }
      pose proof (pow2_pos (ex + 1074) ltac:(lia)) as Hpx.
      unfold scaled.
      change (2 ^ 52) with 4503599627370496 in Hk.
      change (2 ^ 53) with 9007199254740992 in Hbx.
      clear - Hk Hlo Hpow Hpx Hbx.
      revert Hk Hlo Hpow Hpx.
      generalize (2 ^ (ex + 1074)) (2 ^ (e1 + 1074))
        (m * 2 ^ (e + 1074) / 2 ^ (e1 + 1074)).
      intros. nia. }
  destruct Hr as [[H0 _]|[[_ ->]|(m3 & e3 & -> & Bz & He3 & Hv)]].
  - subst m2. lia.
  - reflexivity.
  - apply le_finite_of_scaled; trivial.
    assert (Hsc : scaled m3 e3 = m2 * 2 ^ (e1 + 1074)).
    { unfold scaled. rewrite <- Hv, <- Z.mul_assoc, <- Z.pow_add_r by lia.
      f_equal. f_equal. lia. }
    rewrite Hsc. exact Hge.
Qed.

Lemma normal_digits m : 2 ^ 52 <= Zpos m < 2 ^ 53 -> Zdigits2 (Zpos m) = 53.
Proof. intros H. apply Zdigits2_unique; [lia|exact H]. Qed.

Lemma le_scaled m1 e1 m2 e2 :
  bounded prec emax m1 e1 = true -> bounded prec emax m2 e2 = true ->
  le (S754_finite false m1 e1) (S754_finite false m2 e2) = true ->
  scaled m1 e1 <= scaled m2 e2.
Proof.
  intros B1 B2. unfold le, SFleb. rewrite (SFcompare_scaled _ _ _ _ B1 B2).
  destruct (Z.compare_spec (scaled m1 e1) (scaled m2 e2)) as [Hc|Hc|Hc];
    intros H; try lia; discriminate.
Qed.

Lemma not_le_scaled m1 e1 m2 e2 :
  bounded prec emax m1 e1 = true -> bounded prec emax m2 e2 = true ->
  le (S754_finite false m1 e1) (S754_finite false m2 e2) = false ->
  scaled m2 e2 < scaled m1 e1.
Proof.
  intros B1 B2. unfold le, SFleb. rewrite (SFcompare_scaled _ _ _ _ B1 B2).
  destruct (Z.compare_spec (scaled m1 e1) (scaled m2 e2)) as [Hc|Hc|Hc];
    intros H; try lia; discriminate.
Qed.

(** A normal number divided by a normal number that is not larger
    gives at least one. *)
Lemma div_ge_one mx ex my ey :
  bounded prec emax mx ex = true -> bounded prec emax my ey = true ->
  2 ^ 52 <= Zpos mx -> 2 ^ 52 <= Zpos my ->
  scaled my ey <= scaled mx ex ->
  valid_binary prec emax
    (div (S754_finite false mx ex) (S754_finite false my ey)) = true
  /\ le (of_Z 1) (div (S754_finite false mx ex) (S754_finite false my ey))
     = true.
Proof.
  intros Bx By Nx Ny Hle.
  pose proof (bounded_facts _ _ Bx) as (Hex & Hbx & _).
  pose proof (bounded_facts _ _ By) as (Hey & Hby & _).
  assert (Ht : ey <= ex).
  { destruct (Z.le_gt_cases ey ex) as [H|H]; [exact H|].
    pose proof (exponent_lt_scaled_lt _ _ _ _ Bx By H). lia. }
  change (of_Z 1) with (S754_finite false 4503599627370496 (-52)).
  unfold div, SFdiv, SFdiv_core_binary. cbn [xorb].
  rewrite (normal_digits mx), (normal_digits my) by lia.
  assert (He' : Z.min (fexp (53 + ex - (53 + ey))) (ex - ey) = ex - ey - 53)
    by (rewrite fexp_eq; lia).
  rewrite He'. replace (ex - ey - (ex - ey - 53)) with 53 by lia.
  cbv iota. rewrite Z.shiftl_mul_pow2 by lia.
  pose proof (Z_div_mod (Zpos mx * 2 ^ 53) (Zpos my) ltac:(lia)) as Hdm.
  destruct (Z.div_eucl (Zpos mx * 2 ^ 53) (Zpos my)) as [q r].
  destruct Hdm as [Hq Hr].
  change (2 ^ 52) with 4503599627370496 in *.
  change (2 ^ 53) with 9007199254740992 in *.
  assert (Hq52 : 4503599627370496 <= q) by nia.
  assert (Hdq : 53 <= Zdigits2 q).
  { pose proof (Zdigits2_ge q 52 ltac:(lia) Hq52). lia. }
  apply binary_round_aux_ge; try lia.
  - rewrite fexp_eq. lia.
  - reflexivity.
  - (* one is not above the quotient rounded down *)
    change (scaled 4503599627370496 (-52)) with (2 ^ 52 * 2 ^ 1022).
    rewrite <- Z.pow_add_r by lia. change (52 + 1022) with 1074.
    replace (ex - ey - 53 + 1074) with (ex - ey + 1021) by lia.
    assert (Hm : Zpos my <= Zpos mx * 2 ^ (ex - ey)).
    { unfold scaled in Hle.
      replace (ex + 1074) with (ex - ey + (ey + 1074)) in Hle by lia.
      rewrite (Z.pow_add_r 2 (ex - ey) (ey + 1074)), Z.mul_assoc in Hle by lia.
      pose proof (pow2_pos (ey + 1074) ltac:(lia)) as Hp.
      clear - Hle Hp. revert Hle Hp.
      generalize (2 ^ (ey + 1074)) (2 ^ (ex - ey)). intros. nia. }
    destruct (Z.le_gt_cases 53 (ex - ey)) as [Hc|Hc].
    + assert (2 ^ 1074 <= 2 ^ (ex - ey + 1021))
        by (apply Z.pow_le_mono_r; lia).
      clear - H Hq52. nia.
    + assert (Hq2 : 2 ^ (53 - (ex - ey)) <= q).
      { pose proof (pow2_pos (53 - (ex - ey)) ltac:(lia)) as Hp1.
        pose proof (pow2_pos (ex - ey) ltac:(lia)) as Hp2.
        assert (Hs : 2 ^ (ex - ey) * 2 ^ (53 - (ex - ey)) = 9007199254740992).
        { rewrite <- Z.pow_add_r by lia.
          replace (ex - ey + (53 - (ex - ey))) with 53 by lia. reflexivity. }
        clear - Hq Hr Hm Hs Hp1 Hp2. revert Hq Hm Hs Hp1 Hp2.
        generalize (2 ^ (53 - (ex - ey))) (2 ^ (ex - ey)). intros a b. intros.
        nia. }
      replace 1074 with (53 - (ex - ey) + (ex - ey + 1021)) at 1 by lia.
      rewrite Z.pow_add_r by lia.
      apply Z.mul_le_mono_nonneg_r; [|exact Hq2].
      apply Z.lt_le_incl, pow2_pos. lia.
Qed.

(** A number that is at least one, times 100, is at least 100. *)
Lemma mul_hundred_ge mr er :
  bounded prec emax mr er = true ->
  le (of_Z 1) (S754_finite false mr er) = true ->
  valid_binary prec emax (mul (S754_finite false mr er) (of_Z 100)) = true
  /\ le (of_Z 100) (mul (S754_finite false mr er) (of_Z 100)) = true.
Proof.
  intros Br H1.
  change (of_Z 1) with (S754_finite false 4503599627370496 (-52)) in H1.
  apply le_scaled in H1; [|reflexivity|exact Br].
  change (scaled 4503599627370496 (-52)) with (2 ^ 52 * 2 ^ 1022) in H1.
  rewrite <- Z.pow_add_r in H1 by lia. change (52 + 1022) with 1074 in H1.
  pose proof (bounded_facts _ _ Br) as (Her & Hbr & Hnr).
  assert (Her52 : -52 <= er).
  { destruct (Z.le_gt_cases (-52) er) as [H|H]; [exact H|].
    assert (Hp : 2 ^ (er + 1074) * 2 ^ 53 <= 2 ^ 1074).
    { rewrite <- Z.pow_add_r by lia. apply Z.pow_le_mono_r; lia. }
    pose proof (pow2_pos (er + 1074) ltac:(lia)) as Hp0.
    unfold scaled in H1. clear - H1 Hp Hp0 Hbr. nia. }
  specialize (Hnr ltac:(lia)).
  rewrite hundred_eq. unfold mul, SFmul. cbn [xorb].
  change (2 ^ 52) with 4503599627370496 in *.
  change (2 ^ 53) with 9007199254740992 in *.
  assert (Hd : 105 <= Zdigits2 (Zpos (mr * 7036874417766400))).
  { pose proof (Zdigits2_ge (Zpos (mr * 7036874417766400)) 104 ltac:(lia)) as H.
    change (2 ^ 104) with 20282409603651670423947251286016 in H.
    rewrite Pos2Z.inj_mul in H. specialize (H ltac:(lia)).
    rewrite Pos2Z.inj_mul. lia. }
  apply binary_round_aux_ge; try lia.
  - rewrite fexp_eq. lia.
  - reflexivity.
  - unfold scaled in *. rewrite Pos2Z.inj_mul.
    replace (er + 1074) with (er + -46 + 1074 + 46) in H1 by lia.
    rewrite (Z.pow_add_r 2 (er + -46 + 1074) 46) in H1 by lia.
    replace 1074 with (-46 + 1074 + 46) in H1 at 1 by lia.
    rewrite (Z.pow_add_r 2 (-46 + 1074) 46) in H1 by lia.
    pose proof (pow2_pos (er + -46 + 1074) ltac:(lia)) as Hp.
    change (2 ^ 46) with 70368744177664 in H1.
    clear - H1 Hp. revert H1 Hp.
    generalize (2 ^ (er + -46 + 1074)) (2 ^ (-46 + 1074)). intros. nia.
Qed.

End RoundingBelow.

(** * The budget panel when over budget *)

Lemma lt_le x y : lt x y = true -> le x y = true.
Proof.
  unfold lt, le, SFltb, SFleb. destruct (SFcompare x y) as [[]|]; congruence.
Qed.

Lemma lt_not_le x y : lt x y = true -> le y x = false.
Proof.
  unfold lt, le, SFltb, SFleb. destruct (SFcompare x y) as [c|] eqn:Hc;
    [|discriminate].
  rewrite (SFcompare_swap _ _ _ Hc). destruct c; cbn; congruence.
Qed.

Lemma of_Z_not_NaN z : 0 <= z -> z < 2 ^ 53 -> isNaN (of_Z z) = false.
Proof.
  intros H0 H1. destruct (Z.eq_dec z 0) as [->|Hz]; [reflexivity|].
  rewrite of_Z_canon by lia. reflexivity.
Qed.

Lemma le_of_Z a b : 0 <= a -> a <= b -> b < 2 ^ 53 -> le (of_Z a) (of_Z b) = true.
Proof.
  intros Ha Hab Hb. destruct (Z.eq_dec a b) as [->|Hne].
  - apply le_refl, of_Z_not_NaN; lia.
  - apply lt_le, lt_of_Z; lia.
Qed.

(** Rounding to an integer keeps a number that is at least 100 at
    least 100. *)
Lemma Math_round_ge_hundred v :
  valid_binary prec emax v = true -> le (of_Z 100) v = true ->
  le (of_Z 100) (Math_round v) = true.
Proof.
  intros Hv Hle. rewrite hundred_eq in Hle.
  destruct v as [[]|[]| |[] m e]; try discriminate; trivial.
  destruct e as [|k|k]; try (now rewrite hundred_eq).
  cbn [valid_binary] in Hv.
  pose proof (bounded_facts _ _ Hv) as (Hk & Hm53 & _).
  apply le_scaled in Hle; [|reflexivity|exact Hv].
  unfold Math_round.
  set (q := Z.shiftr (Zpos m) (Zpos k)).
  assert (Hq : q = Zpos m / 2 ^ Zpos k)
    by (unfold q; apply Z.shiftr_div_pow2; lia).
  pose proof (pow2_pos (Zpos k) ltac:(lia)) as Hp.
  assert (Hlo : 100 <= q).
  { rewrite Hq. apply Z.div_le_lower_bound; [exact Hp|].
    unfold scaled in Hle.
    change (7036874417766400 * 2 ^ (-46 + 1074)) with (100 * 2 ^ 1074) in Hle.
    replace 1074 with (Zpos k + (Zneg k + 1074)) in Hle at 1 by lia.
    rewrite Z.pow_add_r in Hle by lia.
    pose proof (pow2_pos (Zneg k + 1074) ltac:(lia)) as Hp2.
    clear - Hle Hp Hp2. revert Hle Hp Hp2.
    generalize (2 ^ Zpos k) (2 ^ (Zneg k + 1074)). intros. nia. }
  assert (Hhi : q < 2 ^ 52).
  { rewrite Hq. apply Z.div_lt_upper_bound; [exact Hp|].
    assert (2 ^ 1 <= 2 ^ Zpos k) by (apply Z.pow_le_mono_r; lia).
    change (2 ^ 1) with 2 in H.
    change (2 ^ 53) with 9007199254740992 in Hm53.
    change (2 ^ 52) with 4503599627370496. clear - H Hm53. nia. }
  clearbody q.
  change (2 ^ 52) with 4503599627370496 in Hhi.
  match goal with
  | |- context [binary_normalize _ _ ?n 0 false] =>
      change (binary_normalize prec emax n 0 false) with (of_Z n);
      assert (Hn : 100 <= n < 2 ^ 53)
  end.
  { change (2 ^ 53) with 9007199254740992. destruct (_ <=? _); lia. }
  apply le_of_Z; lia.
Qed.

(** [Math.min] with a positive finite bound gives the bound itself on
    anything that is at least the bound. *)
Lemma Math_min_clamp mh eh v :
  le (S754_finite false mh eh) v = true ->
  Math_min (S754_finite false mh eh) v = S754_finite false mh eh.
Proof.
  intros Hle. unfold Math_min.
  assert (Nv : isNaN v = false)
    by (destruct v as [[]|[]| |[] m e]; try discriminate; reflexivity).
  rewrite Nv. cbn [isNaN orb is_neg_zero].
  destruct (lt (S754_finite false mh eh) v) eqn:L1; [reflexivity|].
  unfold lt, SFltb in L1. unfold le, SFleb in Hle.
  destruct (SFcompare (S754_finite false mh eh) v) as [c|] eqn:Hc;
    [|discriminate].
  destruct c; try discriminate.
  unfold lt, SFltb. rewrite (SFcompare_swap _ _ _ Hc). cbn [CompOpp].
  destruct v as [[]|[]| |[] m e]; try discriminate.
  cbn [SFcompare] in Hc.
  destruct (Z.compare_spec eh e) as [->|?|?]; try discriminate.
  injection Hc as Hc.
  change (Pos.compare_cont Eq mh m) with (Pos.compare mh m) in Hc.
  apply Pos.compare_eq in Hc. now subst.
Qed.

(** X8.  In every state of the component that is over budget, the
    progress bar has the destructive colour and is full, and the
    percentage shown is 100. *)
Theorem over_budget_bar_full st :
  reachable st -> isWithinBudget st = false ->
  progressBar st = (bg_destructive, of_Z 100)
  /\ progressWidth st = of_Z 100
  /\ budgetUsagePercent st = of_Z 100.
Proof.
  intros Hr Hover. destruct (totalSpent_ok st Hr) as (Hn & Hv & _).
  unfold progressBar, progressWidth, budgetUsagePercent, usageRatio.
  rewrite Hover. unfold isWithinBudget in Hover.
  enough (H : le (of_Z 100) (mul (div (totalSpent st) monthlyBudget) (of_Z 100))
              = true
              /\ valid_binary prec emax
                   (mul (div (totalSpent st) monthlyBudget) (of_Z 100)) = true).
  { destruct H as [Hle Hval].
    pose proof (Math_round_ge_hundred _ Hval Hle) as Hrd.
    rewrite hundred_eq in *.
    now rewrite !Math_min_clamp. }
  rewrite monthlyBudget_eq in *.
  destruct (totalSpent st) as [[]|[]| |[] m e]; try discriminate;
    [split; reflexivity|].
  cbn [valid_binary] in Hv.
  assert (Bb : bounded prec emax 5497558138880000 (-40) = true)
    by reflexivity.
  pose proof (not_le_scaled _ _ _ _ Hv Bb Hover) as Hs.
  assert (He : -40 <= e).
  { destruct (Z.le_gt_cases (-40) e) as [H|H]; [exact H|].
    pose proof (exponent_lt_scaled_lt m e 5497558138880000 (-40) Hv Bb H).
    lia. }
  pose proof (bounded_facts _ _ Hv) as (_ & _ & Hnorm).
  destruct (div_ge_one m e 5497558138880000 (-40) Hv Bb
              (Hnorm ltac:(lia)) ltac:(cbv; discriminate) ltac:(lia))
    as [Vr Lr].
  destruct (div (S754_finite false m e)
              (S754_finite false 5497558138880000 (-40)))
    as [[]|[]| |[] mr er]; try discriminate; [split; reflexivity|].
  destruct (mul_hundred_ge mr er Vr Lr) as [Vm Lm]. now split.
Qed.

(** * Staying over budget *)

Lemma le_trans a b c :
  nonneg a = true -> nonneg b = true -> nonneg c = true ->
  valid_binary prec emax a = true -> valid_binary prec emax b = true ->
  valid_binary prec emax c = true ->
  le a b = true -> le b c = true -> le a c = true.
Proof.
  intros Na Nb Nc Va Vb Vc Hab Hbc.
  destruct a as [[]|[]| |[] ma ea]; try discriminate;
    destruct b as [[]|[]| |[] mb eb]; try discriminate;
    destruct c as [[]|[]| |[] mc ec]; try discriminate; trivial.
  cbn [valid_binary] in *.
  apply le_finite_of_scaled; trivial.
  pose proof (le_scaled _ _ _ _ Va Vb Hab).
  pose proof (le_scaled _ _ _ _ Vb Vc Hbc). lia.
Qed.

Lemma addExpense_total_le clk st :
  reachable st ->
  le (totalSpent st) (totalSpent (fst (addExpense clk st))) = true.
Proof.
  intros Hr. destruct (totalSpent_ok st Hr) as (Hn & Hv & _).
  pose proof (addExpense_preserves_ok clk st (reachable_ok st Hr)) as Hok.
  unfold addExpense in *.
  destruct (falsy (expenseName st) || falsy (expenseAmount st)
            || falsy (expenseCategory st));
    [apply le_refl, nonneg_not_NaN, Hn|].
  destruct (isNaN (parseFloat (expenseAmount st))
            || le (parseFloat (expenseAmount st)) zero);
    [apply le_refl, nonneg_not_NaN, Hn|].
  unfold ledger_ok in Hok. cbn [fst expenses] in *.
  apply Forall_app in Hok as [_ He]. apply Forall_inv in He.
  destruct He as (_ & _ & Hp & Hva). cbn [amount] in Hp, Hva.
  unfold totalSpent at 2. cbn [expenses].
  rewrite fold_left_app. cbn [fold_left amount].
  apply (add_ge _ _ Hn Hv Hp Hva).
Qed.

Lemma over_budget_step clk st :
  reachable st -> isWithinBudget st = false ->
  isWithinBudget (fst (addExpense clk st)) = false.
Proof.
  intros Hr Hover.
  assert (Hr' : reachable (fst (addExpense clk st))) by now constructor.
  destruct (totalSpent_ok _ Hr) as (Hn & Hv & _).
  destruct (totalSpent_ok _ Hr') as (Hn' & Hv' & _).
  unfold isWithinBudget in *.
  destruct (le (totalSpent (fst (addExpense clk st))) monthlyBudget) eqn:Hle;
    [|reflexivity].
  rewrite <- Hover. symmetry.
  apply (le_trans _ (totalSpent (fst (addExpense clk st))) monthlyBudget);
    trivial.
  now apply addExpense_total_le.
Qed.

(** X7.  Once a ledger is over budget it stays over budget, whatever
    is typed and submitted afterwards. *)
Theorem over_budget_persists cs : forall st,
  reachable st -> isWithinBudget st = false ->
  isWithinBudget (run cs st) = false.
Proof.
  induction cs as [|c cs IH]; intros st Hr Hover; cbn [run]; trivial.
  assert (Hf : reachable (fill (call_name c) (call_amount c)
                            (call_category c) st))
    by (unfold fill; now repeat constructor).
  apply IH.
  - unfold submit. now constructor.
  - unfold submit. apply over_budget_step; trivial.
Qed.

(** * Whole amounts *)

(** Whole numbers subtract without error. *)
Lemma sub_of_Z a b :
  0 < b -> b < a -> a < 2 ^ 53 -> sub (of_Z a) (of_Z b) = of_Z (a - b).
Proof.
  intros Hb Hab Ha.
  rewrite (of_Z_canon a), (of_Z_canon b), (of_Z_canon (a - b)) by lia.
  destruct (canon_bounded a ltac:(lia)) as [Ba Sa].
  destruct (canon_bounded b ltac:(lia)) as [Bb Sb].
  unfold canon at 1 2.
  set (ma := Z.to_pos (a * 2 ^ (53 - Zdigits2 a))) in *.
  set (mb := Z.to_pos (b * 2 ^ (53 - Zdigits2 b))) in *.
  set (ea := Zdigits2 a - 53) in *. set (eb := Zdigits2 b - 53) in *.
  clearbody ma mb ea eb.
  unfold sub, SFsub. cbn [cond_Zopp].
  pose proof (bounded_facts _ _ Ba) as (Hea & _).
  pose proof (bounded_facts _ _ Bb) as (Heb & _).
  destruct (shl_align_scaled ma ea (Z.min ea eb)) as (xa & -> & Hxa); try lia.
  destruct (shl_align_scaled mb eb (Z.min ea eb)) as (xb & -> & Hxb); try lia.
  cbn [fst].
  pose proof (pow2_pos (Z.min ea eb + 1074) ltac:(lia)) as Hp.
  pose proof (pow2_pos 1074 ltac:(lia)) as Hp1.
  assert (Hd : (Zpos xa - Zpos xb) * 2 ^ (Z.min ea eb + 1074)
               = (a - b) * 2 ^ 1074).
  { rewrite !Z.mul_sub_distr_r, <- Sa, <- Sb, <- Hxa, <- Hxb. reflexivity. }
  destruct (Zpos xa - Zpos xb) as [|d|d] eqn:Ed; try nia.
  cbn [binary_normalize].
  apply binary_round_canon; [lia|lia|exact Hd].
Qed.

Lemma fold_sum_nonneg zs :
  Forall (fun z => 0 < z) zs -> 0 <= fold_right Z.add 0 zs.
Proof. induction 1; cbn; lia. Qed.

(** X6.  For whole amounts whose sum stays below 2^53 the budget
    verdict is the exact comparison of the sum with 5000, and the amount
    in the over-budget sentence is the exact difference. *)
Theorem whole_amounts_budget st zs :
  map amount (expenses st) = map of_Z zs ->
  Forall (fun z => 0 < z) zs ->
  fold_right Z.add 0 zs < 2 ^ 53 ->
  isWithinBudget st = (fold_right Z.add 0 zs <=? 5000)
  /\ budgetMessage st
     = if fold_right Z.add 0 zs <=? 5000 then WithinBudget
       else OverBudget (of_Z (fold_right Z.add 0 zs - 5000)).
Proof.
  intros Hmap Hpos Hsum.
  pose proof (fold_sum_nonneg zs Hpos) as H0.
  assert (Ht : totalSpent st = of_Z (fold_right Z.add 0 zs)).
  { unfold totalSpent. change zero with (of_Z 0).
    rewrite (fold_sum_exact _ zs 0 Hmap Hpos); [reflexivity|lia|lia]. }
  assert (Hw : isWithinBudget st = (fold_right Z.add 0 zs <=? 5000)).
  { unfold isWithinBudget, monthlyBudget. rewrite Ht.
    destruct (Z.leb_spec (fold_right Z.add 0 zs) 5000) as [Hle|Hgt].
    - apply le_of_Z; [lia|lia|reflexivity].
    - apply lt_not_le, lt_of_Z; lia. }
  split; [exact Hw|].
  unfold budgetMessage. rewrite Hw.
  destruct (Z.leb_spec (fold_right Z.add 0 zs) 5000) as [Hle|Hgt];
    [reflexivity|].
  f_equal. rewrite Ht. unfold monthlyBudget. apply sub_of_Z; lia.
Qed.

(** * Amount texts *)

(** A first byte that is ASCII and not white space ends the trimming. *)
Lemma trimStart_plain a r :
  N.ltb (N_of_ascii a) 128 && negb (ws1 a) = true ->
  trimStart (String a r) = String a r.
Proof.
  intros H. apply andb_true_iff in H as [Hlt Hws].
  apply N.ltb_lt in Hlt. apply negb_true_iff in Hws.
  assert (H2 : forall b, ws2 a b = false).
  { intros b. unfold ws2, byte_is.
    destruct (N.eqb_spec (N_of_ascii a) 194); [lia|reflexivity]. }
  assert (H3 : forall b c, ws3 a b c = false).
  { intros b c. unfold ws3, byte_is.
    destruct (N.eqb_spec (N_of_ascii a) 225); [lia|].
    destruct (N.eqb_spec (N_of_ascii a) 226); [lia|].
    destruct (N.eqb_spec (N_of_ascii a) 227); [lia|].
    destruct (N.eqb_spec (N_of_ascii a) 239); [lia|reflexivity]. }
  cbn [trimStart]. rewrite Hws.
  destruct r as [|b [|c r]]; trivial; rewrite H2; trivial.
  now rewrite H3.
Qed.

Lemma digits_acc_string_of_uint d : forall acc cnt,
  digits (Npos acc) cnt (NilEmpty.string_of_uint d)
  = (Npos (Pos.of_uint_acc d acc), (cnt + Decimal.nb_digits d)%nat,
     ""%string).
Proof.
  induction d; intros acc cnt;
    cbn [NilEmpty.string_of_uint digits Pos.of_uint_acc Decimal.nb_digits];
    try (now rewrite Nat.add_0_r);
    match goal with
    | |- context [digit_of ?c] =>
        let v := eval vm_compute in (digit_of c) in
        change (digit_of c) with v
    end; cbv iota;
    match goal with
    | |- digits ?x _ _ = (Npos (Pos.of_uint_acc _ ?y), _, _) =>
        replace x with (Npos y) by lia
    end; rewrite IHd; f_equal; f_equal; lia.
Qed.

Lemma digits_string_of_uint d : forall cnt,
  digits 0 cnt (NilEmpty.string_of_uint d)
  = (Pos.of_uint d, (cnt + Decimal.nb_digits d)%nat, ""%string).
Proof.
  induction d; intros cnt;
    cbn [NilEmpty.string_of_uint digits Pos.of_uint Decimal.nb_digits];
    try (now rewrite Nat.add_0_r);
    match goal with
    | |- context [digit_of ?c] =>
        let v := eval vm_compute in (digit_of c) in
        change (digit_of c) with v
    end; cbv iota;
    [change (10 * 0 + 0)%N with 0%N; rewrite IHd; f_equal; f_equal; lia|..];
    match goal with
    | |- digits ?x _ _ = (Npos (Pos.of_uint_acc _ ?y), _, _) =>
        change x with (Npos y)
    end; rewrite digits_acc_string_of_uint; f_equal; f_equal; lia.
Qed.

Lemma parseFloat_string_of_uint d :
  d <> Decimal.Nil ->
  parseFloat (NilEmpty.string_of_uint d) = of_ratio false (Pos.of_uint d) 1.
Proof.
  intros Hd. unfold parseFloat.
  assert (Hn : exists n, (0 + Decimal.nb_digits d)%nat = S n)
    by (destruct d; try contradiction; cbn; eauto).
  destruct Hn as [n Hn].
  pose proof (digits_string_of_uint d 0) as Hdig.
  destruct d; try contradiction;
    cbn [NilEmpty.string_of_uint] in *;
    rewrite trimStart_plain by reflexivity;
    match goal with
    | |- context [byte_is ?c 43] =>
        change (byte_is c 43) with false; change (byte_is c 45) with false
    end; cbv beta iota;
    match goal with
    | |- context [String.prefix ?p (String ?c ?r)] =>
        change (String.prefix p (String c r)) with false
    end; cbv beta iota; rewrite Hdig, Hn; reflexivity.
Qed.

Section WholeTexts.

Local Abbreviation fexp := (SpecFloat.fexp prec emax).

(** A whole number below 2^53 over one is that number. *)
Lemma of_ratio_whole p :
  Zpos p < 2 ^ 53 -> of_ratio false (Npos p) 1 = of_Z (Zpos p).
Proof.
  intros Hp. rewrite of_Z_canon by lia.
  unfold of_ratio, SFdiv, SFdiv_core_binary. cbn [xorb].
  change (Zdigits2 1) with 1.
  assert (Hd : 1 <= Zdigits2 (Zpos p) <= 53).
  { split.
    - pose proof (Zdigits2_ge (Zpos p) 0 ltac:(lia) ltac:(simpl; lia)). lia.
    - apply Zdigits2_le; lia. }
  set (d := Zdigits2 (Zpos p)) in *.
  assert (He' : Z.min (fexp (d + 0 - (1 + 0))) (0 - 0) = d - 54)
    by (rewrite fexp_eq; lia).
  rewrite He'.
  replace (0 - 0 - (d - 54)) with (54 - d) by lia.
  destruct (54 - d) as [|s|s] eqn:Es; try lia.
  rewrite Z.shiftl_mul_pow2 by lia.
  pose proof (Z_div_mod (Zpos p * 2 ^ Zpos s) 1 ltac:(lia)) as Hdm.
  destruct (Z.div_eucl (Zpos p * 2 ^ Zpos s) 1) as [q r].
  destruct Hdm as [Hq Hr].
  assert (r = 0) by lia. subst r.
  assert (q = Zpos p * 2 ^ (53 - d) * 2 ^ 1).
  { rewrite <- Z.mul_assoc, <- Z.pow_add_r by lia.
    replace (53 - d + 1) with (Zpos s) by lia. lia. }
  subst q. clear Hq Hr.
  change (new_location 1 0) with loc_Exact.
  pose proof (pow2_pos (53 - d) ltac:(lia)) as Hpp.
  rewrite binary_round_aux_exact.
  - replace (d - 54 + 1) with (d - 53) by lia.
    destruct (Z.leb_spec (d - 53) 971); [reflexivity|lia].
  - nia.
  - lia.
  - rewrite Zdigits2_shiftl by lia. fold d. rewrite fexp_eq. lia.
Qed.

End WholeTexts.

(** The decimal numeral of a whole number below 2^53 parses to that
    number. *)
Lemma parseFloat_toString n :
  0 < n < 2 ^ 53 -> parseFloat (toString n) = of_Z n.
Proof.
  intros Hn. destruct n as [|p|p]; try lia.
  unfold toString. cbn [Z.to_int NilEmpty.string_of_int].
  rewrite parseFloat_string_of_uint by apply DecimalPos.Unsigned.to_uint_nonnil.
  rewrite DecimalPos.Unsigned.of_to. apply of_ratio_whole. lia.
Qed.

Lemma whole_text_accepted c n :
  call_name c <> ""%string -> call_category c <> ""%string ->
  call_amount c = toString n -> 0 < n < 2 ^ 53 ->
  accepted c = true /\ amount (entry_of c) = of_Z n.
Proof.
  intros Hn Hc Ha Hr.
  assert (Hp : parseFloat (call_amount c) = of_Z n)
    by (rewrite Ha; now apply parseFloat_toString).
  assert (Hz : above_zero (parseFloat (call_amount c)) = true)
    by (rewrite Hp, of_Z_canon by lia; reflexivity).
  split; [|exact Hp].
  unfold accepted. rewrite (above_zero_accepted _ Hz).
  apply falsy_nonempty in Hn, Hc.
  pose proof (parse_above_zero_nonempty _ Hz) as Hne.
  apply falsy_nonempty in Hne. now rewrite Hn, Hc, Hne.
Qed.

(** X5.  When every call has a non-empty name and category and a
    decimal numeral of a positive whole number as its amount, and the
    numbers add up to less than 2^53, every call is accepted and the
    total is exactly their sum. *)
Theorem whole_texts_total cs ns :
  Forall2 (fun c n => call_name c <> ""%string
                      /\ call_category c <> ""%string
                      /\ call_amount c = toString n /\ 0 < n) cs ns ->
  fold_right Z.add 0 ns < 2 ^ 53 ->
  List.length (expenses (run cs initial)) = List.length cs
  /\ map amount (expenses (run cs initial)) = map of_Z ns
  /\ totalSpent (run cs initial) = of_Z (fold_right Z.add 0 ns).
Proof.
  intros Hall Hsum.
  assert (Hpos : Forall (fun z => 0 < z) ns).
  { clear Hsum. induction Hall as [|c n cs ns (_ & _ & _ & Hn) _ IH];
      constructor; trivial. }
  assert (Hacc : filter accepted cs = cs
                 /\ map amount (map entry_of cs) = map of_Z ns).
  { clear Hpos. revert Hsum.
    induction Hall as [|c n cs ns (Hn & Hc & Ha & Hn0) Hall IH];
      intros Hsum; [now split|].
    cbn [fold_right] in Hsum.
    assert (Hrest : Forall (fun z => 0 < z) ns).
    { clear - Hall. induction Hall as [|c n cs ns (_ & _ & _ & Hn) _ IH];
        constructor; trivial. }
    pose proof (fold_sum_nonneg ns Hrest) as H0.
    destruct (whole_text_accepted c n Hn Hc Ha ltac:(lia)) as [Hacc Ham].
    destruct (IH ltac:(lia)) as [IH1 IH2].
    cbn [filter map]. rewrite Hacc, IH1, Ham, IH2. now split. }
  destruct Hacc as [Hf Hm].
  assert (Hmap : map amount (expenses (run cs initial)) = map of_Z ns).
  { rewrite run_expenses, Hf. exact Hm. }
  split.
  { rewrite run_expenses, Hf. cbn [expenses initial app].
    apply length_map. }
  split; [exact Hmap|].
  unfold totalSpent. change zero with (of_Z 0).
  rewrite (fold_sum_exact _ ns 0 Hmap Hpos); [reflexivity|lia|lia].
Qed.

(** * Amounts with a minus sign *)

Lemma of_decimal_negative m e :
  le (of_decimal true m e) zero = true.
Proof.
  assert (H : forall n d, le (of_ratio true n d) zero = true).
  { intros [|p] d; [reflexivity|].
    unfold of_ratio, SFdiv, SFdiv_core_binary.
    match goal with
    | |- context [Z.div_eucl ?a ?b] =>
        assert (Hm : 0 <= a);
        [|pose proof (Z_div_mod a b ltac:(lia)) as Hdm;
          destruct (Z.div_eucl a b) as [q r]; destruct Hdm as [Hq Hr]]
    end.
    { match goal with |- 0 <= match ?s with _ => _ end => destruct s end;
        try lia. apply Z.shiftl_nonneg. lia. }
    assert (Hq0 : 0 <= q) by nia.
    cbn [xorb].
    match goal with
    | |- context [binary_round_aux _ _ ?s ?m ?e ?l] =>
        destruct (binary_round_aux_sign s m e l Hq0)
          as [->|[->|(? & ? & ->)]]
    end; reflexivity. }
  destruct e; apply H.
Qed.

Lemma parseFloat_minus r :
  isNaN (parseFloat (String "-" r))
  || le (parseFloat (String "-" r)) zero = true.
Proof.
  unfold parseFloat. rewrite trimStart_plain by reflexivity.
  change (byte_is "-" 43) with false. change (byte_is "-" 45) with true.
  cbv beta iota.
  destruct (String.prefix "Infinity" r); [reflexivity|].
  repeat match goal with
         | |- isNaN (of_decimal true _ _) || _ = true =>
             rewrite of_decimal_negative; apply orb_true_r
         | |- context [match ?x with _ => _ end] => destruct x
         end; reflexivity.
Qed.

(** X4.  An amount text that begins with a minus sign is never
    accepted: the entries stay as they were, and with the name and the
    category filled in the toast is the invalid-amount one. *)
Theorem minus_amount_rejected clk st r :
  expenseAmount st = String "-" r ->
  fst (addExpense clk st) = st
  /\ (expenseName st <> ""%string -> expenseCategory st <> ""%string ->
      snd (addExpense clk st) = InvalidAmount).
Proof.
  intros Ha. pose proof (parseFloat_minus r) as Hbad. rewrite <- Ha in Hbad.
  destruct (falsy (expenseName st) || falsy (expenseAmount st)
            || falsy (expenseCategory st)) eqn:Hm.
  - rewrite (addExpense_missing clk st Hm). split; [reflexivity|].
    intros Hn Hc. apply falsy_nonempty in Hn, Hc.
    rewrite Hn, Hc, Ha in Hm. discriminate.
  - rewrite (addExpense_invalid clk st Hm Hbad). now split.
Qed.

(** * Clicking again, and the history of the ledger *)

(** X1.  A call of [addExpense] made on the state a call has just
    produced, that is by the handler of the render that follows it,
    never adds an entry: after a success the form is empty, and the
    second call stops at the missing-information toast and changes
    nothing; after a failure the second call fails in the same way,
    with the same toast and the state still as it was. *)
Theorem addExpense_twice clk1 clk2 st :
  expenses (fst (addExpense clk2 (fst (addExpense clk1 st))))
  = expenses (fst (addExpense clk1 st))
  /\ (forall n a,
        snd (addExpense clk1 st) = ExpenseAdded n a ->
        addExpense clk2 (fst (addExpense clk1 st))
        = (fst (addExpense clk1 st), MissingInformation))
  /\ (snd (addExpense clk1 st) = MissingInformation ->
      addExpense clk2 (fst (addExpense clk1 st)) = (st, MissingInformation))
  /\ (snd (addExpense clk1 st) = InvalidAmount ->
      addExpense clk2 (fst (addExpense clk1 st)) = (st, InvalidAmount)).
Proof.
  destruct (falsy (expenseName st) || falsy (expenseAmount st)
            || falsy (expenseCategory st)) eqn:Hm.
  { rewrite (addExpense_missing clk1 st Hm). cbn [fst snd].
    rewrite (addExpense_missing clk2 st Hm).
    repeat split; trivial; discriminate. }
  destruct (isNaN (parseFloat (expenseAmount st))
            || le (parseFloat (expenseAmount st)) zero) eqn:Hv.
  { rewrite (addExpense_invalid clk1 st Hm Hv). cbn [fst snd].
    rewrite (addExpense_invalid clk2 st Hm Hv).
    repeat split; trivial; discriminate. }
  rewrite (addExpense_added clk1 st Hm Hv). cbn [fst snd].
  rewrite addExpense_missing by reflexivity.
  repeat split; trivial; discriminate.
Qed.

(** X2.  The ledger is a log: after any calls the entries are the
    former entries, untouched, followed by one entry for each accepted
    call, in the order of the calls and with the fields and the clock
    reads of that call; rejected calls leave no trace. *)
Theorem ledger_history cs st :
  expenses (run cs st) = expenses st ++ map entry_of (filter accepted cs)
  /\ firstn (List.length (expenses st)) (expenses (run cs st)) = expenses st
  /\ List.length (expenses (run cs st))
     = (List.length (expenses st) + List.length (filter accepted cs))%nat.
Proof.
  rewrite run_expenses. split; [reflexivity|]. split.
  - rewrite firstn_app, Nat.sub_diag, firstn_all. cbn [firstn].
    apply app_nil_r.
  - now rewrite length_app, length_map.
Qed.

(** X3.  The table shows the placeholder line exactly when no call
    has been accepted; otherwise it has one row for each accepted call,
    in order, with the name, the parsed amount and the category of the
    call, keyed by the clock reading; the keys are pairwise distinct
    when those readings are. *)
Theorem table_after_calls cs :
  (filter accepted cs = [] -> expenseRows (run cs initial) = NoExpensesRecorded)
  /\ (filter accepted cs <> [] ->
      expenseRows (run cs initial)
      = Rows (map (fun c => {| key := toString (Date_now (clock c));
                               name_cell := call_name c;
                               amount_cell := parseFloat (call_amount c);
                               category_cell := call_category c |})
                (filter accepted cs)))
  /\ (NoDup (map (fun c => Date_now (clock c)) (filter accepted cs)) ->
      forall rows, expenseRows (run cs initial) = Rows rows ->
                   NoDup (map key rows)).
Proof.
  unfold expenseRows. rewrite run_expenses. cbn [expenses initial app].
  rewrite length_map, !map_map. cbn [id name amount category entry_of].
  split; [|split].
  - intros ->. reflexivity.
  - intros Hne. destruct (filter accepted cs); [contradiction|reflexivity].
  - intros Hnd rows.
    destruct (Nat.eqb (List.length (filter accepted cs)) 0); [discriminate|].
    intros [= <-]. rewrite map_map. cbn [key].
    rewrite <- (map_map (fun c => Date_now (clock c)) toString).
    apply NoDup_map_injective; [apply toString_inj|exact Hnd].
Qed.

(** * The percentage is a whole number *)

Section WholePercent.

Local Abbreviation fexp := (SpecFloat.fexp prec emax).

(** Any finite number times 100 is in normal form. *)
Lemma mul_hundred_valid x :
  valid_binary prec emax (mul x (of_Z 100)) = true.
Proof.
  rewrite hundred_eq.
  destruct x as [sx|sx| |sx mx ex]; try reflexivity.
  unfold mul, SFmul.
  assert (Hd : 53 <= Zdigits2 (Zpos (mx * 7036874417766400))).
  { pose proof (Zdigits2_ge (Zpos (mx * 7036874417766400)) 52 ltac:(lia)) as H.
    change (2 ^ 52) with 4503599627370496 in H.
    rewrite Pos2Z.inj_mul in H. specialize (H ltac:(lia)).
    rewrite Pos2Z.inj_mul. lia. }
  destruct (binary_round_aux_spec (xorb sx false)
              (Zpos (mx * 7036874417766400)) (ex + -46) loc_Exact
              ltac:(lia) ltac:(rewrite fexp_eq; lia)) as (m2 & _ & Hr).
  exact (rounds_to_valid _ _ _ _ Hr).
Qed.

End WholePercent.

Lemma lt_irrefl x : lt x x = false.
Proof.
  destruct (lt x x) eqn:H; [|reflexivity].
  pose proof (lt_le _ _ H) as H1. pose proof (lt_not_le _ _ H) as H2.
  congruence.
Qed.

Lemma Math_min_of_Z a b :
  0 <= a < 2 ^ 53 -> 0 <= b < 2 ^ 53 ->
  Math_min (of_Z a) (of_Z b) = of_Z (Z.min a b).
Proof.
  intros Ha Hb. unfold Math_min.
  rewrite !of_Z_not_NaN by lia. cbn [orb].
  destruct (Z.lt_trichotomy a b) as [Hlt|[->|Hgt]].
  - rewrite lt_of_Z by lia. f_equal. lia.
  - rewrite lt_irrefl, Z.min_id.
    destruct (is_neg_zero (of_Z b)); reflexivity.
  - assert (Hnlt : lt (of_Z a) (of_Z b) = false).
    { destruct (lt (of_Z a) (of_Z b)) eqn:H; [|reflexivity].
      pose proof (lt_not_le _ _ H) as H1.
      rewrite (lt_le _ _ (lt_of_Z b a ltac:(lia) Hgt ltac:(lia))) in H1.
      discriminate. }
    rewrite Hnlt, lt_of_Z by lia. f_equal. lia.
Qed.

(** [Math.round] of a number in normal form that is not negative is
    [Infinity], a number of at least 2^52, or a whole number below
    2^53. *)
Lemma Math_round_whole v :
  nonneg v = true -> valid_binary prec emax v = true ->
  le (of_Z 100) (Math_round v) = true
  \/ exists n, 0 <= n < 2 ^ 53 /\ Math_round v = of_Z n.
Proof.
  intros Nv Vv.
  destruct v as [[]|[]| |[] m e]; try discriminate.
  - right. exists 0. split; [lia|reflexivity].
  - left. reflexivity.
  - cbn [valid_binary] in Vv.
    pose proof (bounded_facts _ _ Vv) as (He & Hm53 & Hnorm).
    destruct e as [|k|k].
    + left. cbn [Math_round]. rewrite hundred_eq.
      apply le_finite_of_scaled; trivial. specialize (Hnorm ltac:(lia)).
      unfold scaled.
      change (7036874417766400 * 2 ^ (-46 + 1074)) with (100 * 2 ^ 1074).
      change (2 ^ (0 + 1074)) with (2 ^ 1074).
      pose proof (pow2_pos 1074 ltac:(lia)).
      change (2 ^ 52) with 4503599627370496 in Hnorm. nia.
    + left. cbn [Math_round]. rewrite hundred_eq.
      apply le_finite_of_scaled; trivial. specialize (Hnorm ltac:(lia)).
      unfold scaled.
      change (7036874417766400 * 2 ^ (-46 + 1074)) with (100 * 2 ^ 1074).
      assert (2 ^ 1074 <= 2 ^ (Zpos k + 1074))
        by (apply Z.pow_le_mono_r; lia).
      pose proof (pow2_pos 1074 ltac:(lia)).
      change (2 ^ 52) with 4503599627370496 in Hnorm.
      revert H H0. generalize (2 ^ 1074) (2 ^ (Zpos k + 1074)). intros. nia.
    + right. unfold Math_round.
      set (q := Z.shiftr (Zpos m) (Zpos k)).
      assert (Hq : q = Zpos m / 2 ^ Zpos k)
        by (unfold q; apply Z.shiftr_div_pow2; lia).
      pose proof (pow2_pos (Zpos k) ltac:(lia)) as Hp.
      assert (Hlo : 0 <= q) by (rewrite Hq; apply Z.div_pos; lia).
      assert (Hhi : q < 2 ^ 52).
      { rewrite Hq. apply Z.div_lt_upper_bound; [exact Hp|].
        assert (2 ^ 1 <= 2 ^ Zpos k) by (apply Z.pow_le_mono_r; lia).
        change (2 ^ 1) with 2 in H.
        change (2 ^ 53) with 9007199254740992 in Hm53.
        change (2 ^ 52) with 4503599627370496. clear - H Hm53. nia. }
      clearbody q. change (2 ^ 52) with 4503599627370496 in Hhi.
      match goal with
      | |- context [binary_normalize _ _ ?n 0 false] =>
          change (binary_normalize prec emax n 0 false) with (of_Z n);
          exists n
      end.
      split; [|reflexivity].
      change (2 ^ 53) with 9007199254740992. destruct (_ <=? _); lia.
Qed.

(** X9.  In every state of the component the percentage shown is a
    whole number from 0 to 100. *)
Theorem budget_usage_percent_whole st :
  reachable st ->
  exists k, 0 <= k <= 100 /\ budgetUsagePercent st = of_Z k.
Proof.
  intros Hr. destruct (totalSpent_ok st Hr) as (Hn & _ & _).
  unfold budgetUsagePercent, usageRatio.
  set (v := mul (div (totalSpent st) monthlyBudget) (of_Z 100)).
  assert (Nv : nonneg v = true).
  { unfold v. rewrite hundred_eq. apply mul_nonneg.
    rewrite monthlyBudget_eq. now apply div_nonneg. }
  assert (Vv : valid_binary prec emax v = true) by apply mul_hundred_valid.
  destruct (Math_round_whole v Nv Vv) as [Hge|(n & Hn53 & ->)].
  - exists 100. split; [lia|]. rewrite hundred_eq in *.
    now apply Math_min_clamp.
  - exists (Z.min 100 n). split; [lia|].
    apply Math_min_of_Z; [|lia]. change (2 ^ 53) with 9007199254740992. lia.
Qed.

(** * Witnesses of the further properties *)

Lemma addExpense_twice_witness :
  snd (addExpense (clock_at 1700000000000) lunch_form)
  = ExpenseAdded "Lunch" (of_Z 200)
  /\ addExpense (clock_at 1700000000001)
       (fst (addExpense (clock_at 1700000000000) lunch_form))
     = (fst (addExpense (clock_at 1700000000000) lunch_form),
        MissingInformation)
  /\ snd (addExpense (clock_at 0) (fill "X" "abc" "Food" initial))
     = InvalidAmount
  /\ addExpense (clock_at 1)
       (fst (addExpense (clock_at 0) (fill "X" "abc" "Food" initial)))
     = (fill "X" "abc" "Food" initial, InvalidAmount)
  /\ snd (addExpense (clock_at 0) (fill "" "100" "Food" initial))
     = MissingInformation
  /\ addExpense (clock_at 1)
       (fst (addExpense (clock_at 0) (fill "" "100" "Food" initial)))
     = (fill "" "100" "Food" initial, MissingInformation).
Proof.
  split; [reflexivity|]. split.
  { apply (proj1 (proj2 (addExpense_twice (clock_at 1700000000000)
                           (clock_at 1700000000001) lunch_form))
             "Lunch"%string (of_Z 200)).
    reflexivity. }
  split; [reflexivity|]. split.
  { apply (proj2 (proj2 (proj2 (addExpense_twice (clock_at 0) (clock_at 1)
                                  (fill "X" "abc" "Food" initial))))).
    reflexivity. }
  split; [reflexivity|].
  apply (proj1 (proj2 (proj2 (addExpense_twice (clock_at 0) (clock_at 1)
                                (fill "" "100" "Food" initial))))).
  reflexivity.
Defined.

Lemma table_after_calls_witness :
  let cs := [call_at 1700000000000 "Lunch" "200" "Food";
             call_at 1700000030000 "Bus" "" "Transportation";
             call_at 1700000060000 "Phone" "4900" "Shopping"] in
  filter accepted cs <> []
  /\ NoDup (map (fun c => Date_now (clock c)) (filter accepted cs))
  /\ expenseRows (run cs initial)
     = Rows [{| key := "1700000000000"; name_cell := "Lunch";
                amount_cell := of_Z 200; category_cell := "Food" |};
             {| key := "1700000060000"; name_cell := "Phone";
                amount_cell := of_Z 4900; category_cell := "Shopping" |}]
  /\ (forall rows, expenseRows (run cs initial) = Rows rows ->
                   NoDup (map key rows)).
Proof.
  assert (Hne : filter accepted
                  [call_at 1700000000000 "Lunch" "200" "Food";
                   call_at 1700000030000 "Bus" "" "Transportation";
                   call_at 1700000060000 "Phone" "4900" "Shopping"] <> [])
    by discriminate.
  assert (Hnd : NoDup (map (fun c => Date_now (clock c))
                         (filter accepted
                            [call_at 1700000000000 "Lunch" "200" "Food";
                             call_at 1700000030000 "Bus" "" "Transportation";
                             call_at 1700000060000 "Phone" "4900"
                               "Shopping"]))).
  { cbn. constructor; [|constructor; [|constructor]]; cbn; intuition lia. }
  destruct (table_after_calls
              [call_at 1700000000000 "Lunch" "200" "Food";
               call_at 1700000030000 "Bus" "" "Transportation";
               call_at 1700000060000 "Phone" "4900" "Shopping"])
    as (_ & Hrows & Hkeys).
  split; [exact Hne|]. split; [exact Hnd|].
  split; [rewrite (Hrows Hne); reflexivity|exact (Hkeys Hnd)].
Defined.

Lemma minus_amount_rejected_witness :
  let st := fill "Refund" "-50" "Other" initial in
  expenseAmount st = String "-" "50"
  /\ fst (addExpense (clock_at 0) st) = st
  /\ snd (addExpense (clock_at 0) st) = InvalidAmount.
Proof.
  split; [reflexivity|].
  destruct (minus_amount_rejected (clock_at 0)
              (fill "Refund" "-50" "Other" initial) "50" eq_refl)
    as [Hst Htoast].
  split; [exact Hst|]. apply Htoast; discriminate.
Defined.

Lemma whole_texts_total_witness :
  let cs := [call_at 1700000000000 "Lunch" "200" "Food";
             call_at 1700000060000 "Phone" "4900" "Shopping"] in
  fold_right Z.add 0 [200; 4900] < 2 ^ 53
  /\ List.length (expenses (run cs initial)) = 2%nat
  /\ map amount (expenses (run cs initial)) = [of_Z 200; of_Z 4900]
  /\ totalSpent (run cs initial) = of_Z 5100.
Proof.
  split; [reflexivity|].
  apply (whole_texts_total
           [call_at 1700000000000 "Lunch" "200" "Food";
            call_at 1700000060000 "Phone" "4900" "Shopping"] [200; 4900]).
  - repeat constructor; try discriminate; lia.
  - reflexivity.
Defined.

Lemma whole_amounts_budget_witness :
  map amount (expenses over_budget) = map of_Z [200; 4900]
  /\ isWithinBudget over_budget = false
  /\ budgetMessage over_budget = OverBudget (of_Z 100).
Proof.
  split; [reflexivity|].
  apply (whole_amounts_budget over_budget [200; 4900]);
    [reflexivity|repeat constructor; lia|reflexivity].
Defined.

Lemma over_budget_persists_witness :
  reachable over_budget /\ isWithinBudget over_budget = false
  /\ isWithinBudget
       (run [call_at 1700000120000 "Tea" "15" "Food";
             call_at 1700000180000 "" "" ""] over_budget) = false.
Proof.
  assert (Hr : reachable over_budget)
    by (apply run_reachable; constructor).
  split; [exact Hr|]. split; [reflexivity|].
  apply (over_budget_persists
           [call_at 1700000120000 "Tea" "15" "Food";
            call_at 1700000180000 "" "" ""] over_budget Hr).
  reflexivity.
Defined.

Lemma over_budget_bar_full_witness :
  reachable over_budget /\ isWithinBudget over_budget = false
  /\ progressBar over_budget = (bg_destructive, of_Z 100)
  /\ progressWidth over_budget = of_Z 100
  /\ budgetUsagePercent over_budget = of_Z 100.
Proof.
  assert (Hr : reachable over_budget)
    by (apply run_reachable; constructor).
  split; [exact Hr|]. split; [reflexivity|].
  apply (over_budget_bar_full over_budget Hr). reflexivity.
Defined.

Lemma budget_usage_percent_whole_witness :
  reachable (run [call_at 1700000000000 "Lunch" "200" "Food"] initial)
  /\ exists k, 0 <= k <= 100
               /\ budgetUsagePercent
                    (run [call_at 1700000000000 "Lunch" "200" "Food"] initial)
                  = of_Z k.
Proof.
  assert (Hr : reachable
                 (run [call_at 1700000000000 "Lunch" "200" "Food"] initial))
    by (apply run_reachable; constructor).
  split; [exact Hr|].
  apply (budget_usage_percent_whole _ Hr).
Defined.

(** * Texts that are not numbers as a whole *)

(** C2, as stated, fails: the text 12abc is not a number, [parseFloat]
    reads the 12 at its head and leaves abc unread, and the entry is
    added with the amount 12. *)
Lemma numeric_prefix_accepted :
  unread "12abc" = Some "abc"%string
  /\ addExpense (clock_at 1700000000000) (fill "Lunch" "12abc" "Food" initial)
     = ({| expenses :=
             [{| id := "1700000000000"; name := "Lunch";
                 amount := of_Z 12; category := "Food";
                 date := 1700000000000 |}];
           expenseName := ""; expenseAmount := ""; expenseCategory := "" |},
        ExpenseAdded "Lunch" (of_Z 12))
  /\ expenses (fst (addExpense (clock_at 1700000000000)
                      (fill "Lunch" "12abc" "Food" initial)))
     <> expenses (fill "Lunch" "12abc" "Food" initial).
Proof.
  split; [reflexivity|]. split; [reflexivity|].
  vm_compute. discriminate.
Qed.

(** * Totals that are not the exact sum *)

(** C3, as stated, fails: the amounts 1e16, 1 and 1 have the exact sum
    10000000000000002, which is a number of the format, and the total
    is 1e16; with the same entries in another order the total is the
    exact sum. *)
Lemma rounded_total_not_exact_sum :
  let car := call_at 1 "Car" "1e16" "Other" in
  let gum := call_at 2 "Gum" "1" "Food" in
  let tea := call_at 3 "Tea" "1" "Food" in
  map amount (expenses (run [car; gum; tea] initial))
  = [of_Z 10000000000000000; of_Z 1; of_Z 1]
  /\ of_Z (10000000000000000 + 1 + 1) = S754_finite false 5000000000000001 1
  /\ totalSpent (run [car; gum; tea] initial) = of_Z 10000000000000000
  /\ totalSpent (run [car; gum; tea] initial)
     <> of_Z (10000000000000000 + 1 + 1)
  /\ totalSpent (run [gum; tea; car] initial)
     = of_Z (10000000000000000 + 1 + 1).
Proof.
  split; [reflexivity|]. split; [reflexivity|]. split; [reflexivity|].
  split; [vm_compute; discriminate|reflexivity].
Qed.

(** * The percentage shown *)




